(** * Backtesting a three-EMA crossover strategy: the code of [trading.py]

    The three functions of [trading.py] ([EMA], [EMA_trading_strategy],
    [assessTradingStrategy]) are embedded as programs of a small state and
    exception monad over a store of pandas data frames, and the properties
    of the specification are proved about these programs. *)

From Stdlib Require Import ZArith List String Floats Uint63 Lia.
From stdpp Require Import base option list gmap strings pretty.

Local Open Scope Z_scope.

(** ** Numbers

    Python floats and [numpy.float64] values are IEEE binary64 numbers.  The
    code only uses the operations below; nothing is assumed about them, so
    every result holds for the machine's arithmetic as it is. *)

Class Float64 (F : Type) := {
  NaN : F;                        (* float('NaN') *)
  fadd : F → F → F;               (* x + y *)
  fsub : F → F → F;               (* x - y *)
  fmul : F → F → F;               (* x * y *)
  fdiv : F → F → F;               (* x / y with a numpy operand: never raises *)
  flt : F → F → bool;             (* x < y *)
  fle : F → F → bool;             (* x <= y *)
  isnan : F → bool;               (* np.isnan(x) *)
  iszero : F → bool;              (* x == 0 *)
  of_int : Z → F;                 (* the float of a Python int in an operation *)
  truediv_int : Z → Z → F;        (* a / b on Python ints, b nonzero *)
  np_sum : list F → F;            (* np.sum on a slice of a numeric column:
                                     pandas' sum, which passes over NaN *)
  fee : F                         (* the literal .0075 *)
}.

(** [x > y] and [x >= y] are [y < x] and [y <= x], also on NaN. *)
Definition fgt `{Float64 F} (x y : F) : bool := flt y x.
Definition fge `{Float64 F} (x y : F) : bool := fle y x.

(** ** Exceptions

    A call returns a value or raises one of the exceptions the code can
    meet. *)

Inductive exn := ZeroDivisionError | KeyError | TypeError.

Inductive outcome (A : Type) := Returned (a : A) | Raised (e : exn).
Arguments Returned {A} a.
Arguments Raised {A} e.

(** A Python computation over a store [S]: it runs in a store and returns
    or raises, leaving a store behind in both cases. *)
Definition py (S A : Type) : Type := S → S * outcome A.

Definition ret {S A} (a : A) : py S A := λ σ, (σ, Returned a).
Definition raise {S A} (e : exn) : py S A := λ σ, (σ, Raised e).
Definition bind {S A B} (m : py S A) (k : A → py S B) : py S B :=
  λ σ, match m σ with
       | (σ', Returned a) => k a σ'
       | (σ', Raised e) => (σ', Raised e)
       end.

Notation "'let*' x := m 'in' k" := (bind m (λ x, k))
  (at level 10, x name, m at level 100, k at level 200).
Notation "m ;;; k" := (bind m (λ _, k))
  (at level 100, k at level 200, right associativity).

(** [for x in l: body x], with the loop's local variables threaded as [a]. *)
Fixpoint for_each {S A} (l : list Z) (body : Z → A → py S A) (a : A) : py S A :=
  match l with
  | [] => ret a
  | i :: l' => let* a' := body i a in for_each l' body a'
  end.

(** Python's [or] and [and] evaluate their right operand only when needed. *)
Definition py_or {S} (a b : py S bool) : py S bool :=
  let* x := a in if x then ret true else b.
Definition py_and {S} (a b : py S bool) : py S bool :=
  let* x := a in if x then b else ret false.

(** [range(a, b)] *)
Definition py_range (a b : Z) : list Z := seqZ a (b - a).

(** ** Cells, frames and the store *)

Section Model.
Context {F : Type} {FO : Float64 F}.

(** A cell of a column holds a float (NaN marks a missing value) or a
    string ('BUY', 'SELL'). *)
Inductive value := VFloat (x : F) | VStr (s : string).

(** A data frame under the default [RangeIndex]: [nrows] labels
    [0 .. nrows-1] and the columns by name. *)
Record DataFrame := mkDF { nrows : nat; cols : gmap string (list value) }.

(** Frames are Python objects: a reference is a position in the store. *)
Local Abbreviation ref := nat.
Local Abbreviation store := (list DataFrame).
Local Abbreviation py := (py store).

Definition empty_frame : DataFrame := mkDF 0 ∅.

(** The frame a reference points to; Python has no dangling references. *)
Definition frame_at (σ : store) (r : ref) : DataFrame :=
  default empty_frame (σ !! r).

Definition get_frame (r : ref) : py DataFrame := λ σ, (σ, Returned (frame_at σ r)).
Definition put_frame (r : ref) (d : DataFrame) : py unit :=
  λ σ, (<[r := d]> σ, Returned tt).

(** [df.copy(deep=True)]: a new object with the same contents. *)
Definition copy_deep (r : ref) : py ref :=
  λ σ, (σ ++ [frame_at σ r], Returned (length σ)).

(** [len(df)] *)
Definition df_len (r : ref) : py Z :=
  let* d := get_frame r in ret (Z.of_nat (nrows d)).

(** [df[name] = x]: the column [name] is created, or replaced, with [x] in
    every row. *)
Definition set_column (r : ref) (name : string) (x : value) : py unit :=
  let* d := get_frame r in
  put_frame r (mkDF (nrows d) (<[name := replicate (nrows d) x]> (cols d))).

(** [df[name]]: [KeyError] when there is no such column. *)
Definition get_column (r : ref) (name : string) : py (list value) :=
  let* d := get_frame r in
  match cols d !! name with
  | Some c => ret c
  | None => raise KeyError
  end.

(** [df[name][i]]: the cell with label [i]; [KeyError] when [i] is not a
    label of the index (negative labels included). *)
Definition get_item (r : ref) (name : string) (i : Z) : py value :=
  let* c := get_column r name in
  if decide (0 ≤ i) then
    match c !! Z.to_nat i with
    | Some v => ret v
    | None => raise KeyError
    end
  else raise KeyError.

(** [df[name][a:b]]: an integer slice is positional, with Python's
    treatment of negative and out-of-range bounds. *)
Definition slice_bound (n x : Z) : Z :=
  if decide (x < 0) then Z.max (x + n) 0 else Z.min x n.

Definition py_slice {A} (a b : Z) (l : list A) : list A :=
  let n := Z.of_nat (length l) in
  let a' := slice_bound n a in
  let b' := slice_bound n b in
  take (Z.to_nat (b' - a')) (drop (Z.to_nat a') l).

Definition get_slice (r : ref) (name : string) (a b : Z) : py (list value) :=
  let* c := get_column r name in ret (py_slice a b c).

(** [df[name][i] = v]: the assignment through the column writes into the
    frame when [i] is a label of the index (pandas without copy-on-write,
    which the code relies on); with any other label only the temporary
    column object grows, and the frame keeps its contents. *)
Definition set_item (r : ref) (name : string) (i : Z) (v : value) : py unit :=
  let* c := get_column r name in
  if decide (0 ≤ i < Z.of_nat (length c)) then
    let* d := get_frame r in
    put_frame r (mkDF (nrows d) (<[name := <[Z.to_nat i := v]> c]> (cols d)))
  else ret tt.

(** A cell used as a number: arithmetic and [np.isnan] on a string raise
    [TypeError]. *)
Definition as_float (v : value) : py F :=
  match v with
  | VFloat x => ret x
  | VStr _ => raise TypeError
  end.

Fixpoint as_floats (l : list value) : py (list F) :=
  match l with
  | [] => ret []
  | v :: l' => let* x := as_float v in let* xs := as_floats l' in ret (x :: xs)
  end.

(** [a / b] on Python ints. *)
Definition py_truediv (a b : Z) : py F :=
  if decide (b = 0) then raise ZeroDivisionError else ret (truediv_int a b).

(** ** [EMA] *)

(** [f'{numPeriods}_period_EMA'] *)
Definition ema_name (numPeriods : Z) : string := pretty numPeriods +:+ "_period_EMA".

Definition EMA_body (dfCopy : ref) (closeCol : string) (numPeriods : Z) (k : F)
    (i : Z) (_ : unit) : py unit :=
  if decide (i = numPeriods - 1) then
    let* w := get_slice dfCopy closeCol (i - (numPeriods - 1)) (i + 1) in
    let* xs := as_floats w in
    set_item dfCopy (ema_name numPeriods) i
      (VFloat (fdiv (np_sum xs) (of_int numPeriods)))
  else
    let* c := get_item dfCopy closeCol i in
    let* x := as_float c in
    let* p := get_item dfCopy (ema_name numPeriods) (i - 1) in
    let* y := as_float p in
    set_item dfCopy (ema_name numPeriods) i
      (VFloat (fadd (fmul x k) (fmul y (fsub (of_int 1) k)))).

Definition EMA (df : ref) (closeCol : string) (numPeriods : Z) : py ref :=
  let* dfCopy := copy_deep df in
  set_column dfCopy (ema_name numPeriods) (VFloat NaN) ;;;
  let* k := py_truediv 2 (numPeriods + 1) in
  let* n := df_len dfCopy in
  for_each (py_range (numPeriods - 1) n) (EMA_body dfCopy closeCol numPeriods k) tt ;;;
  ret dfCopy.

(** ** [EMA_trading_strategy] *)

(** [df[name][i]] read as a number. *)
Definition float_item (r : ref) (name : string) (i : Z) : py F :=
  let* v := get_item r name i in as_float v.

(** [np.isnan(df[name][i])] *)
Definition isnan_item (r : ref) (name : string) (i : Z) : py bool :=
  let* x := float_item r name i in ret (isnan x).

(** [df[a][i] < df[b][i]] and [df[a][i] > df[b][i]] *)
Definition lt_items (r : ref) (a b : string) (i : Z) : py bool :=
  let* x := float_item r a i in let* y := float_item r b i in ret (flt x y).
Definition gt_items (r : ref) (a b : string) (i : Z) : py bool :=
  let* x := float_item r a i in let* y := float_item r b i in ret (fgt x y).

Definition signal_col : string := "Buy_Sell_Signal".

Definition strategy_body (dfCopy : ref) (emaCol1 emaCol2 emaCol3 : string)
    (i : Z) (bought : bool) : py bool :=
  let* c := py_or (isnan_item dfCopy emaCol1 i)
              (py_or (isnan_item dfCopy emaCol2 i) (isnan_item dfCopy emaCol3 i)) in
  if c then ret bought
  else
    let* c := py_and (lt_items dfCopy emaCol2 emaCol1 i)
                (py_and (lt_items dfCopy emaCol3 emaCol2 i)
                   (ret (bool_decide (bought = false)))) in
    if c then
      set_item dfCopy signal_col i (VStr "BUY") ;;; ret true
    else
      let* c := py_and (gt_items dfCopy emaCol2 emaCol1 i)
                  (py_and (gt_items dfCopy emaCol3 emaCol2 i)
                     (ret (bool_decide (bought = true)))) in
      if c then
        set_item dfCopy signal_col i (VStr "SELL") ;;; ret false
      else ret bought.

Definition EMA_trading_strategy (df : ref) (emaCol1 emaCol2 emaCol3 : string) : py ref :=
  let* dfCopy := copy_deep df in
  set_column dfCopy signal_col (VFloat NaN) ;;;
  let* n := df_len dfCopy in
  for_each (py_range 0 n) (strategy_body dfCopy emaCol1 emaCol2 emaCol3) false ;;;
  ret dfCopy.

(** ** [assessTradingStrategy] *)

(** What the caller receives after Python's formatting calls is kept by the
    number that was formatted: the rounding to two decimals and the
    conversion to text are the interpreter's. *)
Inductive rounded := Int0 | Round2 (x : F).      (* 0, round(x, 2) *)
Inductive percent := Percent (x : F).            (* str(round(x, 2)) + '%' *)

(** The local variables of the loop.  [inv_numpy] records that [investment]
    has been rebound by line 103 to a [numpy.float64] product; until then it
    is the Python number [initialAmount]. *)
Record locals := mkLocals {
  investment : F;
  inv_numpy : bool;
  buyPrice : F;
  sellPrice : F;
  bought : bool;
  numSuccess : Z;
  numFailure : Z;
  endingInvestmentAmount : rounded
}.

Definition init_locals (initialAmount : F) : locals :=
  mkLocals initialAmount false (of_int 0) (of_int 0) false 0 0 Int0.

(** [v == s] for a cell and a string literal. *)
Definition is_str (v : value) (s : string) : bool :=
  match v with
  | VStr t => bool_decide (t = s)
  | VFloat _ => false
  end.

Definition signal_is (r : ref) (name : string) (i : Z) (s : string) : py bool :=
  let* v := get_item r name i in ret (is_str v s).

(** Lines 95-108: the branch on the signal. *)
Definition assess_trade (df : ref) (closeCol buySellSignalCol : string)
    (i : Z) (st : locals) : py locals :=
  let* c := py_and (signal_is df buySellSignalCol i "BUY")
              (ret (bool_decide (bought st = false))) in
  if c then
    let* p := float_item df closeCol i in
    ret (mkLocals (investment st) (inv_numpy st)
           (fmul p (fadd (of_int 1) fee)) (sellPrice st) true
           (numSuccess st) (numFailure st) (endingInvestmentAmount st))
  else
    let* c := py_and (signal_is df buySellSignalCol i "SELL")
                (ret (bool_decide (bought st = true))) in
    if c then
      let* sp := float_item df closeCol i in
      let investmentInitial := investment st in
      let inv := fmul (investment st) (fsub (fdiv sp (buyPrice st)) fee) in
      if fge inv investmentInitial then
        ret (mkLocals inv true (buyPrice st) sp false
               (numSuccess st + 1) (numFailure st) (endingInvestmentAmount st))
      else
        ret (mkLocals inv true (buyPrice st) sp false
               (numSuccess st) (numFailure st + 1) (endingInvestmentAmount st))
    else ret st.

(** Lines 109-110: the snapshot at the last position. *)
Definition assess_snapshot (df : ref) (i : Z) (st : locals) : py locals :=
  let* n := df_len df in
  if decide (i = n - 1) then
    ret (mkLocals (investment st) (inv_numpy st) (buyPrice st) (sellPrice st)
           (bought st) (numSuccess st) (numFailure st) (Round2 (investment st)))
  else ret st.

Definition assess_body (df : ref) (closeCol buySellSignalCol : string)
    (i : Z) (st : locals) : py locals :=
  let* st' := assess_trade df closeCol buySellSignalCol i st in
  assess_snapshot df i st'.

(** The locals when the loop of line 94 has processed the positions
    [0 .. j-1], in increasing order. *)
Definition assess_prefix (df : ref) (closeCol buySellSignalCol : string)
    (initialAmount : F) (j : Z) : py locals :=
  for_each (py_range 0 j) (assess_body df closeCol buySellSignalCol)
    (init_locals initialAmount).

(** Lines 86-110: the locals after the whole loop, [range(len(df))]. *)
Definition assess_loop (df : ref) (closeCol buySellSignalCol : string)
    (initialAmount : F) : py locals :=
  let* n := df_len df in
  assess_prefix df closeCol buySellSignalCol initialAmount n.

Record BacktestResult := mkResult {
  totalProfit : rounded;
  percentTotalProfit : percent;
  res_endingInvestmentAmount : rounded;
  res_numSuccess : Z;
  res_numFailure : Z;
  successRate : percent
}.

(** [investment / initialAmount] at line 113: a division of Python numbers
    ([ZeroDivisionError] on a zero divisor) until line 103 has made
    [investment] a numpy value. *)
Definition div_investment (st : locals) (initialAmount : F) : py F :=
  if negb (inv_numpy st) && iszero initialAmount then raise ZeroDivisionError
  else ret (fdiv (investment st) initialAmount).

(** Lines 112-115. *)
Definition assess_report (st : locals) (initialAmount : F) : py BacktestResult :=
  let totalProfit := Round2 (fsub (investment st) initialAmount) in
  let* q := div_investment st initialAmount in
  let percentTotalProfit := Percent (fsub (fmul q (of_int 100)) (of_int 100)) in
  let* r := py_truediv (numSuccess st) (numSuccess st + numFailure st) in
  let successRate := Percent (fmul r (of_int 100)) in
  ret (mkResult totalProfit percentTotalProfit (endingInvestmentAmount st)
         (numSuccess st) (numFailure st) successRate).

Definition assessTradingStrategy (df : ref) (closeCol buySellSignalCol : string)
    (initialAmount : F) : py BacktestResult :=
  let* st := assess_loop df closeCol buySellSignalCol initialAmount in
  assess_report st initialAmount.

End Model.

(** ** The closed form of the column [EMA] leaves

    Used to state what the loop of [EMA] computes: [p-1] missing values, the
    seed, then the recurrence along the rest of the series. *)

Section ClosedForm.
Context {F : Type} {FO : Float64 F}.

Definition ema_next (k x prev : F) : F :=
  fadd (fmul x k) (fmul prev (fsub (of_int 1) k)).

Fixpoint ema_tail (k prev : F) (xs : list F) : list F :=
  match xs with
  | [] => []
  | x :: xs' => ema_next k x prev :: ema_tail k (ema_next k x prev) xs'
  end.




Definition ema_seed (s : list F) (p : nat) : F :=
  fdiv (np_sum (take p s)) (of_int (Z.of_nat p)).

Definition ema_values (s : list F) (p : nat) : list F :=
  let k := truediv_int 2 (Z.of_nat p + 1) in
  replicate (p - 1) NaN ++ ema_seed s p :: ema_tail k (ema_seed s p) (drop p s).

(** A column of [n] cells while a loop fills it: the cells of [out] below
    position [j], the initial value [x] from there on. *)
Definition filled {A} (x : A) (out : list A) (n j : nat) : list A :=
  take j out ++ replicate (n - j) x.

(** The frame [d] with the column [name] holding the cells [c]. *)
Definition with_column (d : @DataFrame F) (name : string) (c : list value) : DataFrame :=
  mkDF (nrows d) (<[name := c]> (cols d)).

Definition ema_partial (out : list F) (n j : nat) : list F := filled NaN out n j.

Definition with_floats (d : DataFrame) (name : string) (out : list F) : DataFrame :=
  with_column d name (VFloat <$> out).

End ClosedForm.

(** ** The signal generator in the words of the specification

    Section 4.2 of the specification describes the generator as a scan with
    a [holding] flag; [spec_generateSignals] follows that text, to be
    compared with [EMA_trading_strategy]. *)

Inductive signal := NONE | BUY | SELL.

Section SignalSpec.
Context {F : Type} {FO : Float64 F}.

Definition spec_signal (holding : bool) (shortEMA midEMA longEMA : F) : signal * bool :=
  if isnan shortEMA || isnan midEMA || isnan longEMA then (NONE, holding)
  else if flt midEMA shortEMA && flt longEMA midEMA && negb holding then (BUY, true)
  else if fgt midEMA shortEMA && fgt longEMA midEMA && holding then (SELL, false)
  else (NONE, holding).

Fixpoint spec_generateSignals (holding : bool) (shortEMA midEMA longEMA : list F)
    : list signal :=
  match shortEMA, midEMA, longEMA with
  | a :: s1, b :: s2, c :: s3 =>
      (spec_signal holding a b c).1
      :: spec_generateSignals (spec_signal holding a b c).2 s1 s2 s3
  | _, _, _ => []
  end.

(** The flag when the scan has passed the given rows. *)
Fixpoint spec_holding (holding : bool) (shortEMA midEMA longEMA : list F) : bool :=
  match shortEMA, midEMA, longEMA with
  | a :: s1, b :: s2, c :: s3 =>
      spec_holding (spec_signal holding a b c).2 s1 s2 s3
  | _, _, _ => holding
  end.

(** The cell of the signal column that stands for a signal. *)
Definition signal_cell (sg : signal) : @value F :=
  match sg with
  | NONE => VFloat NaN
  | BUY => VStr "BUY"
  | SELL => VStr "SELL"
  end.

(** The alternation of section 3, on the cells of a signal column: a scan
    with a flag that starts at [holding]; a 'BUY' needs the flag false and
    sets it, a 'SELL' needs it true and clears it. *)
Fixpoint alternates (holding : bool) (l : list (@value F)) : Prop :=
  match l with
  | [] => True
  | v :: l' =>
      if is_str v "BUY" then holding = false ∧ alternates true l'
      else if is_str v "SELL" then holding = true ∧ alternates false l'
      else alternates holding l'
  end.

End SignalSpec.

(** ** The backtest on the cells it reads

    [trade_step] and [snapshot_step] are the two halves of the loop body of
    [assessTradingStrategy] once the cells at the current position have
    been read; [assess_states] iterates them over the first [j] positions.
    [completed_pairs] counts the trades as the specification defines them. *)

Section BacktestSpec.
Context {F : Type} {FO : Float64 F}.

Definition trade_step (sig : @value F) (close : F) (st : locals) : locals :=
  if is_str sig "BUY" && bool_decide (bought st = false) then
    mkLocals (investment st) (inv_numpy st)
      (fmul close (fadd (of_int 1) fee)) (sellPrice st) true
      (numSuccess st) (numFailure st) (endingInvestmentAmount st)
  else if is_str sig "SELL" && bool_decide (bought st = true) then
    let inv := fmul (investment st) (fsub (fdiv close (buyPrice st)) fee) in
    if fge inv (investment st) then
      mkLocals inv true (buyPrice st) close false
        (numSuccess st + 1) (numFailure st) (endingInvestmentAmount st)
    else
      mkLocals inv true (buyPrice st) close false
        (numSuccess st) (numFailure st + 1) (endingInvestmentAmount st)
  else st.

Definition snapshot_step (last : bool) (st : @locals F) : locals :=
  if last then
    mkLocals (investment st) (inv_numpy st) (buyPrice st) (sellPrice st)
      (bought st) (numSuccess st) (numFailure st) (Round2 (investment st))
  else st.

Fixpoint assess_states (sigs : list (@value F)) (closes : list F) (n : nat)
    (init : locals) (j : nat) : locals :=
  match j with
  | O => init
  | S j' =>
      let st := assess_states sigs closes n init j' in
      match sigs !! j', closes !! j' with
      | Some v, Some x =>
          snapshot_step (bool_decide (Z.of_nat j' = Z.of_nat n - 1)) (trade_step v x st)
      | _, _ => st
      end
  end.

(** The completed (BUY, SELL) pairs of a signal sequence: a BUY seen while
    not holding opens a pair, the next SELL seen while holding completes
    it. *)
Fixpoint completed_pairs (holding : bool) (sigs : list (@value F)) : nat :=
  match sigs with
  | [] => 0
  | v :: l =>
      if is_str v "BUY" && negb holding then completed_pairs true l
      else if is_str v "SELL" && holding then S (completed_pairs false l)
      else completed_pairs holding l
  end.

(** The holding flag of that scan after the given signals. *)
Fixpoint holding_after (holding : bool) (sigs : list (@value F)) : bool :=
  match sigs with
  | [] => holding
  | v :: l =>
      if is_str v "BUY" && negb holding then holding_after true l
      else if is_str v "SELL" && holding then holding_after false l
      else holding_after holding l
  end.

End BacktestSpec.

(** ** IEEE binary64 and sample frames

    The machine's numbers as an instance of [Float64], on Rocq's primitive
    binary64 floats, and the frames the examples run on.  [of_int] is the
    conversion of an int below 2^63 in absolute value; [truediv_int]
    divides the two conversions, which is Python's quotient for ints that
    are floats exactly; [np_sum] adds from the left with missing values
    counted as zero, which is the order of the reduction on windows of
    fewer than eight cells. *)

Module Binary64.

Definition float_of_int (z : Z) : float :=
  match z with
  | Z0 => 0%float
  | Zpos p => PrimFloat.of_uint63 (Uint63.of_Z (Zpos p))
  | Zneg p => PrimFloat.opp (PrimFloat.of_uint63 (Uint63.of_Z (Zpos p)))
  end.

Definition sum_left (l : list float) : float :=
  fold_left PrimFloat.add
    (map (λ x, if PrimFloat.is_nan x then 0%float else x) l) 0%float.

#[global] Instance binary64 : Float64 float := {|
  NaN := PrimFloat.nan;
  fadd := PrimFloat.add;
  fsub := PrimFloat.sub;
  fmul := PrimFloat.mul;
  fdiv := PrimFloat.div;
  flt := PrimFloat.ltb;
  fle := PrimFloat.leb;
  isnan := PrimFloat.is_nan;
  iszero := PrimFloat.is_zero;
  of_int := float_of_int;
  truediv_int a b := PrimFloat.div (float_of_int a) (float_of_int b);
  np_sum := sum_left;
  fee := 0x1.eb851eb851eb8p-8%float
|}.

End Binary64.

Module Samples.

(** Scenario 1 of the specification: five closes. *)
Definition prices : @DataFrame float :=
  mkDF 5 {[ "Close" := VFloat <$> [10; 20; 30; 40; 50]%float ]}.

(** Three EMA columns: warm-up, bullish order, no change, bearish order. *)
Definition averages : @DataFrame float :=
  mkDF 4 (<["short" := VFloat <$> [PrimFloat.nan; 3; 3; 1]%float]>
          (<["mid" := VFloat <$> [2; 2; 2; 2]%float]>
           {[ "long" := VFloat <$> [1; 1; 1; 3]%float ]})).

(** Scenario 2 of the specification: one completed trade. *)
Definition trades : @DataFrame float :=
  mkDF 6 (<["Close" := VFloat <$> [100; 101; 102; 103; 104; 105]%float]>
          {[ "Buy_Sell_Signal" :=
               [VFloat PrimFloat.nan; VFloat PrimFloat.nan; VStr "BUY";
                VFloat PrimFloat.nan; VStr "SELL"; VFloat PrimFloat.nan] ]}).

(** An entry that is never closed. *)
Definition open_position : @DataFrame float :=
  mkDF 3 (<["Close" := VFloat <$> [100; 101; 102]%float]>
          {[ "Buy_Sell_Signal" :=
               [VFloat PrimFloat.nan; VStr "BUY"; VFloat PrimFloat.nan] ]}).



(** A signal column alone, without any 'BUY'. *)
Definition signals_only : @DataFrame float :=
  mkDF 2 {[ "Buy_Sell_Signal" := [VFloat PrimFloat.nan; VStr "SELL"] ]}.

(** A first EMA column that has not warmed up, and no other EMA column. *)
Definition cold : @DataFrame float :=
  mkDF 2 {[ "short" := VFloat <$> [PrimFloat.nan; PrimFloat.nan] ]}.

(** The three EMA columns of [averages] beside a close column. *)
Definition averages_priced : @DataFrame float :=
  mkDF 4 (<["Close" := VFloat <$> [10; 11; 12; 13]%float]> (cols averages)).

End Samples.

(** ** Frame conditions

    A computation is local to the reference [r] when, run in a store whose
    last object is the one at [r], it leaves the objects before it as they
    were and keeps the store's extent. *)

Section Locality.
Context {F : Type} {FO : Float64 F}.

Definition local_to (r : nat) {A} (m : py (list (@DataFrame F)) A) : Prop :=
  ∀ σ d, length σ = r → ∃ d', (m (σ ++ [d])).1 = σ ++ [d'].

(** A computation that leaves the store as it found it. *)
Definition readonly {A} (m : py (list (@DataFrame F)) A) : Prop :=
  ∀ σ, (m σ).1 = σ.

(** The invariant of the loop of [EMA_trading_strategy] before position
    [j], in a store that extends [σ] by the copy: the signal column has [n]
    cells, its first [j] cells alternate and leave the flag at [b], and the
    cells from [j] on still hold NaN. *)
Definition signal_inv (σ : list (@DataFrame F)) (n j : nat) (b : bool)
    (σ' : list (@DataFrame F)) : Prop :=
  ∃ D c, σ' = σ ++ [D] ∧ nrows D = n ∧ cols D !! signal_col = Some c ∧
    length c = n ∧ alternates false (take j c) ∧
    holding_after false (take j c) = b ∧
    ∀ i : nat, (j ≤ i < n)%nat → c !! i = Some (VFloat NaN).

(** A computation that, run in a store whose last object is the one at
    [r], changes at most cells of the column [name] of that object: the
    objects before it, its number of rows and its other columns stay, and
    the column [name] keeps its length. *)
Definition keeps_columns (r : nat) (name : string) {A}
    (m : py (list (@DataFrame F)) A) : Prop :=
  ∀ σ d, length σ = r →
    ∃ d', (m (σ ++ [d])).1 = σ ++ [d'] ∧ nrows d' = nrows d ∧
          (∀ c, c ≠ name → cols d' !! c = cols d !! c) ∧
          (∀ c0, cols d !! name = Some c0 →
                 ∃ c1, cols d' !! name = Some c1 ∧ length c1 = length c0).

(** The number of cells of a column that hold the string [t]. *)
Fixpoint count_str (t : string) (l : list (@value F)) : nat :=
  match l with
  | [] => 0
  | v :: l' => (if is_str v t then 1 else 0) + count_str t l'
  end.

End Locality.

(** ** Properties *)

Section Properties.
Context {F : Type} {FO : Float64 F}.
Local Abbreviation ref := nat.
Local Abbreviation store := (list (@DataFrame F)).
Local Abbreviation py := (py store).
Implicit Types (σ : store) (d : @DataFrame F) (r df : ref) (s : list F).

(** *** Running computations *)

Lemma bind_returned {A B} (m : py A) (k : A → py B) σ σ' a :
  m σ = (σ', Returned a) → bind m k σ = k a σ'.
Proof. unfold bind. by intros ->. Qed.

Lemma bind_raised {A B} (m : py A) (k : A → py B) σ σ' e :
  m σ = (σ', Raised e) → bind m k σ = (σ', Raised e).
Proof. unfold bind. by intros ->. Qed.

Lemma for_each_app {A} (l1 l2 : list Z) (body : Z → A → py A) a σ :
  for_each (l1 ++ l2) body a σ = bind (for_each l1 body a) (for_each l2 body) σ.
Proof.
  revert a σ. induction l1 as [|i l1 IH]; intros a σ; simpl; [done|].
  unfold bind. destruct (body i a σ) as [σ1 [a1|e]]; [|done].
  by rewrite IH.
Qed.

Lemma py_range_snoc (j : Z) : 0 ≤ j → py_range 0 (j + 1) = py_range 0 j ++ [j].
Proof.
  intros Hj. unfold py_range.
  replace (j + 1 - 0) with (j + 1) by lia. replace (j - 0) with j by lia.
  rewrite seqZ_app by lia. simpl. done.
Qed.

(** *** The store and its primitives *)

Lemma frame_at_last σ d : frame_at (σ ++ [d]) (length σ) = d.
Proof. unfold frame_at. by rewrite list_lookup_middle. Qed.

Lemma insert_last σ d d' : <[length σ := d']> (σ ++ [d]) = σ ++ [d'].
Proof.
  rewrite insert_app_r_alt by lia. by rewrite Nat.sub_diag.
Qed.

Lemma get_column_run r name σ :
  get_column r name σ =
  (σ, match cols (frame_at σ r) !! name with
      | Some c => Returned c
      | None => Raised KeyError
      end).
Proof.
  unfold get_column, bind, get_frame. by destruct (cols (frame_at σ r) !! name).
Qed.

Lemma get_item_some r name (j : nat) c v σ :
  cols (frame_at σ r) !! name = Some c → c !! j = Some v →
  get_item r name (Z.of_nat j) σ = (σ, Returned v).
Proof.
  intros Hc Hv. unfold get_item.
  rewrite (bind_returned _ _ σ σ c) by (by rewrite get_column_run, Hc).
  rewrite decide_True by lia. by rewrite Nat2Z.id, Hv.
Qed.

Lemma float_item_some r name (j : nat) c x σ :
  cols (frame_at σ r) !! name = Some c → c !! j = Some (VFloat x) →
  float_item r name (Z.of_nat j) σ = (σ, Returned x).
Proof.
  intros Hc Hv. unfold float_item.
  by rewrite (bind_returned _ _ σ σ (VFloat x)) by eauto using get_item_some.
Qed.

Lemma get_slice_some r name a b c σ :
  cols (frame_at σ r) !! name = Some c →
  get_slice r name a b σ = (σ, Returned (py_slice a b c)).
Proof.
  intros Hc. unfold get_slice.
  by rewrite (bind_returned _ _ σ σ c) by (by rewrite get_column_run, Hc).
Qed.

Lemma set_item_some r name (j : nat) c v σ :
  cols (frame_at σ r) !! name = Some c → (j < length c)%nat →
  set_item r name (Z.of_nat j) v σ =
  (<[r := mkDF (nrows (frame_at σ r))
            (<[name := <[j := v]> c]> (cols (frame_at σ r)))]> σ, Returned tt).
Proof.
  intros Hc Hj. unfold set_item.
  rewrite (bind_returned _ _ σ σ c) by (by rewrite get_column_run, Hc).
  rewrite decide_True by lia. by rewrite Nat2Z.id.
Qed.

Lemma as_floats_fmap (l : list F) σ :
  as_floats (VFloat <$> l) σ = (σ, Returned l).
Proof.
  induction l as [|x l IH]; [done|].
  rewrite fmap_cons. cbn [as_floats as_float].
  unfold bind, ret. by rewrite IH.
Qed.

Lemma py_slice_prefix {A} (b : nat) (l : list A) :
  (b ≤ length l)%nat → py_slice 0 (Z.of_nat b) l = take b l.
Proof.
  intros Hb. unfold py_slice, slice_bound.
  rewrite !decide_False by lia.
  rewrite Z.min_l, Z.min_l by lia. simpl. f_equal. lia.
Qed.

(** *** The closed form *)

Lemma length_ema_tail (k prev : F) xs : length (ema_tail k prev xs) = length xs.
Proof. revert prev. induction xs; intros; simpl; auto. Qed.

Lemma length_ema_values s (p : nat) :
  (1 ≤ p ≤ length s)%nat → length (ema_values s p) = length s.
Proof.
  intros Hp. unfold ema_values.
  rewrite length_app, length_replicate. simpl.
  rewrite length_ema_tail, length_drop. lia.
Qed.

Lemma ema_values_warmup s (p i : nat) :
  (i < p - 1)%nat → ema_values s p !! i = Some NaN.
Proof.
  intros Hi. unfold ema_values.
  rewrite lookup_app_l by (rewrite length_replicate; lia).
  by apply lookup_replicate_2.
Qed.

Lemma ema_values_seed s (p : nat) :
  ema_values s p !! (p - 1)%nat = Some (ema_seed s p).
Proof.
  unfold ema_values.
  rewrite lookup_app_r by (rewrite length_replicate; lia).
  rewrite length_replicate, Nat.sub_diag. done.
Qed.

Lemma ema_tail_lookup (k : F) xs : ∀ prev (j : nat) x y,
  xs !! j = Some x → (prev :: ema_tail k prev xs) !! j = Some y →
  ema_tail k prev xs !! j = Some (ema_next k x y).
Proof.
  induction xs as [|x0 xs IH]; intros prev j x y Hx Hy; [done|].
  destruct j as [|j]; simpl in *.
  - by simplify_eq.
  - by apply IH.
Qed.

Lemma ema_values_rec s (p i : nat) x prev :
  (1 ≤ p ≤ i)%nat → s !! i = Some x →
  ema_values s p !! (i - 1)%nat = Some prev →
  ema_values s p !! i = Some (ema_next (truediv_int 2 (Z.of_nat p + 1)) x prev).
Proof.
  intros Hp Hx. unfold ema_values.
  rewrite !lookup_app_r by (rewrite length_replicate; lia).
  rewrite length_replicate.
  replace (i - (p - 1))%nat with (S (i - p)) by lia.
  replace (i - 1 - (p - 1))%nat with (i - p)%nat by lia.
  intros Hprev. simpl. apply ema_tail_lookup; [|done].
  rewrite lookup_drop. by replace (p + (i - p))%nat with i by lia.
Qed.

(** *** Columns being filled *)

Lemma filled_full {A} (x : A) (out : list A) (n : nat) :
  length out = n → filled x out n n = out.
Proof.
  intros <-. unfold filled.
  by rewrite Nat.sub_diag, firstn_all, app_nil_r.
Qed.

Lemma filled_none {A} (x : A) (out : list A) (n : nat) :
  filled x out n 0 = replicate n x.
Proof. unfold filled. by rewrite take_0, Nat.sub_0_r. Qed.

Lemma filled_step {A} (x : A) (out : list A) (n j : nat) y :
  (j < n)%nat → out !! j = Some y →
  <[j := y]> (filled x out n j) = filled x out n (S j).
Proof.
  intros Hj Hy. unfold filled.
  assert (length (take j out) = j) as Hlen.
  { rewrite length_take. apply lookup_lt_Some in Hy. lia. }
  rewrite insert_app_r_alt by lia. rewrite Hlen, Nat.sub_diag.
  replace (n - j)%nat with (S (n - S j)) by lia. simpl.
  rewrite (take_S_r _ _ _ Hy). by rewrite <- app_assoc.
Qed.

(** A position the loop leaves alone keeps its initial value. *)
Lemma filled_skip {A} (x : A) (out : list A) (n j : nat) :
  (j < n)%nat → out !! j = Some x → filled x out n j = filled x out n (S j).
Proof.
  intros Hj Hx. rewrite <- (filled_step x out n j x Hj Hx).
  symmetry. apply list_insert_id. unfold filled.
  assert (length (take j out) = j) as Hlen.
  { rewrite length_take. apply lookup_lt_Some in Hx. lia. }
  rewrite lookup_app_r by lia. rewrite Hlen, Nat.sub_diag.
  by replace (n - j)%nat with (S (n - S j)) by lia.
Qed.

Lemma length_filled {A} (x : A) (out : list A) (n j : nat) :
  length out = n → (j ≤ n)%nat → length (filled x out n j) = n.
Proof.
  intros Hl Hj. unfold filled.
  rewrite length_app, length_take, length_replicate. lia.
Qed.

Lemma filled_lookup_lt {A} (x : A) (out : list A) (n j i : nat) :
  (i < j)%nat → (j ≤ length out)%nat → filled x out n j !! i = out !! i.
Proof.
  intros Hi Hj. unfold filled.
  rewrite lookup_app_l by (rewrite length_take; lia).
  by rewrite lookup_take_lt.
Qed.

Lemma filled_lookup_ge {A} (x : A) (out : list A) (n j i : nat) :
  (j ≤ i < n)%nat → (j ≤ length out)%nat → filled x out n j !! i = Some x.
Proof.
  intros Hi Hj. unfold filled.
  rewrite lookup_app_r by (rewrite length_take; lia).
  apply lookup_replicate_2. rewrite length_take. lia.
Qed.

Lemma ema_partial_full (out : list F) (n : nat) :
  length out = n → ema_partial out n n = out.
Proof. apply filled_full. Qed.

Lemma ema_partial_step (out : list F) (n j : nat) x :
  (j < n)%nat → out !! j = Some x →
  <[j := x]> (ema_partial out n j) = ema_partial out n (S j).
Proof. apply filled_step. Qed.

Lemma length_ema_partial (out : list F) (n j : nat) :
  length out = n → (j ≤ n)%nat → length (ema_partial out n j) = n.
Proof. apply length_filled. Qed.

(** *** The loop of [EMA] *)

Lemma with_column_self d name (c : list value) :
  cols (with_column d name c) !! name = Some c.
Proof. apply lookup_insert_eq. Qed.

Lemma with_column_other d name (c : list value) c' :
  c' ≠ name → cols (with_column d name c) !! c' = cols d !! c'.
Proof. intros Hc. by apply lookup_insert_ne. Qed.

Lemma nrows_with_column d name (c : list value) :
  nrows (with_column d name c) = nrows d.
Proof. done. Qed.

Lemma set_item_last σ d name (c : list value) (j : nat) v :
  (j < length c)%nat →
  set_item (length σ) name (Z.of_nat j) v (σ ++ [with_column d name c])
  = (σ ++ [with_column d name (<[j := v]> c)], Returned tt).
Proof.
  intros Hj.
  rewrite (set_item_some _ _ _ c).
  - rewrite frame_at_last, insert_last. unfold with_column. simpl.
    by rewrite insert_insert_eq.
  - rewrite frame_at_last. apply with_column_self.
  - done.
Qed.

Lemma with_floats_self d name (out : list F) :
  cols (with_floats d name out) !! name = Some (VFloat <$> out).
Proof. apply with_column_self. Qed.

Lemma with_floats_other d name (out : list F) c :
  c ≠ name → cols (with_floats d name out) !! c = cols d !! c.
Proof. apply with_column_other. Qed.

Lemma nrows_with_floats d name (out : list F) :
  nrows (with_floats d name out) = nrows d.
Proof. done. Qed.

Lemma set_float_last σ d name (out : list F) (j : nat) v :
  (j < length out)%nat →
  set_item (length σ) name (Z.of_nat j) (VFloat v) (σ ++ [with_floats d name out])
  = (σ ++ [with_floats d name (<[j := v]> out)], Returned tt).
Proof.
  intros Hj. unfold with_floats.
  rewrite set_item_last by (by rewrite length_fmap).
  by rewrite list_fmap_insert.
Qed.

Lemma EMA_body_step σ d closeCol (p : nat) s (j : nat) :
  cols d !! closeCol = Some (VFloat <$> s) →
  (1 ≤ p ≤ length s)%nat → closeCol ≠ ema_name (Z.of_nat p) →
  (p - 1 ≤ j < length s)%nat →
  EMA_body (length σ) closeCol (Z.of_nat p) (truediv_int 2 (Z.of_nat p + 1))
    (Z.of_nat j) tt
    (σ ++ [with_floats d (ema_name (Z.of_nat p))
             (ema_partial (ema_values s p) (length s) j)])
  = (σ ++ [with_floats d (ema_name (Z.of_nat p))
             (ema_partial (ema_values s p) (length s) (S j))], Returned tt).
Proof.
  intros Hclose Hp Hne Hj.
  set (out := ema_values s p). set (name := ema_name (Z.of_nat p)).
  set (D := with_floats d name (ema_partial out (length s) j)).
  assert (length out = length s) as Hout by (by apply length_ema_values).
  assert (cols (frame_at (σ ++ [D]) (length σ)) !! closeCol = Some (VFloat <$> s))
    as HcloseD.
  { rewrite frame_at_last. unfold D. by rewrite with_floats_other. }
  unfold EMA_body. case_decide as Hseed.
  - assert (j = (p - 1)%nat) as -> by lia.
    replace (Z.of_nat (p - 1) - (Z.of_nat p - 1)) with 0 by lia.
    replace (Z.of_nat (p - 1) + 1) with (Z.of_nat p) by lia.
    rewrite (bind_returned _ _ _ _ _ (get_slice_some _ _ _ _ _ _ HcloseD)).
    rewrite py_slice_prefix by (rewrite length_fmap; lia).
    rewrite <- fmap_take.
    rewrite (bind_returned _ _ _ _ _ (as_floats_fmap _ _)).
    unfold D. rewrite set_float_last by (rewrite length_ema_partial; lia).
    rewrite ema_partial_step; [done|lia|]. apply ema_values_seed.
  - assert (p ≤ j)%nat as Hpj by lia.
    destruct (lookup_lt_is_Some_2 s j) as [x Hx]; [lia|].
    destruct (lookup_lt_is_Some_2 out (j - 1)%nat) as [y Hy]; [lia|].
    rewrite (bind_returned _ _ _ (σ ++ [D]) (VFloat x)).
    2:{ apply (get_item_some _ _ _ _ _ _ HcloseD). by rewrite list_lookup_fmap, Hx. }
    cbn [as_float]. rewrite (bind_returned _ _ _ (σ ++ [D]) x) by done.
    replace (Z.of_nat j - 1) with (Z.of_nat (j - 1)) by lia.
    rewrite (bind_returned _ _ _ (σ ++ [D]) (VFloat y)).
    2:{ apply (get_item_some _ _ _ (VFloat <$> ema_partial out (length s) j)).
        - rewrite frame_at_last. apply with_floats_self.
        - rewrite list_lookup_fmap. unfold ema_partial.
          rewrite filled_lookup_lt by lia. by rewrite Hy. }
    cbn [as_float]. rewrite (bind_returned _ _ _ (σ ++ [D]) y) by done.
    unfold D. rewrite set_float_last by (rewrite length_ema_partial; lia).
    rewrite ema_partial_step; [done|lia|].
    apply ema_values_rec; [lia|done|done].
Qed.

Lemma EMA_loop σ d closeCol (p : nat) s :
  cols d !! closeCol = Some (VFloat <$> s) →
  (1 ≤ p ≤ length s)%nat → closeCol ≠ ema_name (Z.of_nat p) →
  ∀ (m j : nat), (p - 1 ≤ j)%nat → (j + m = length s)%nat →
  for_each (seqZ (Z.of_nat j) (Z.of_nat m))
    (EMA_body (length σ) closeCol (Z.of_nat p) (truediv_int 2 (Z.of_nat p + 1))) tt
    (σ ++ [with_floats d (ema_name (Z.of_nat p))
             (ema_partial (ema_values s p) (length s) j)])
  = (σ ++ [with_floats d (ema_name (Z.of_nat p)) (ema_values s p)], Returned tt).
Proof.
  intros Hclose Hp Hne. induction m as [|m IH]; intros j Hj Hm.
  - simpl. rewrite Nat.add_0_r in Hm. subst j.
    by rewrite ema_partial_full by (by apply length_ema_values).
  - rewrite seqZ_cons by lia. cbn [for_each].
    rewrite (bind_returned _ _ _ _ _ (EMA_body_step σ d closeCol p s j Hclose Hp Hne ltac:(lia))).
    replace (Z.succ (Z.of_nat j)) with (Z.of_nat (S j)) by lia.
    replace (Z.pred (Z.of_nat (S m))) with (Z.of_nat m) by lia.
    apply IH; lia.
Qed.

Lemma set_column_last σ d name (x : F) :
  set_column (length σ) name (VFloat x) (σ ++ [d])
  = (σ ++ [with_floats d name (replicate (nrows d) x)], Returned tt).
Proof.
  unfold set_column, bind, get_frame, put_frame.
  rewrite frame_at_last, insert_last. unfold with_floats, with_column.
  by rewrite fmap_replicate.
Qed.

Lemma df_len_last σ d : df_len (length σ) (σ ++ [d]) = (σ ++ [d], Returned (Z.of_nat (nrows d))).
Proof. unfold df_len, bind, get_frame, ret. by rewrite frame_at_last. Qed.

Lemma ema_partial_warmup s (p : nat) :
  (1 ≤ p ≤ length s)%nat →
  ema_partial (ema_values s p) (length s) (p - 1) = replicate (length s) NaN.
Proof.
  intros Hp. unfold ema_partial, filled, ema_values.
  rewrite take_app_length' by (by rewrite length_replicate).
  rewrite <- replicate_add. f_equal. lia.
Qed.

(** With a period within the series, [EMA] returns a new frame: the copy
    of its argument with the column of the closed form. *)
Lemma EMA_run σ df closeCol (numPeriods : Z) s :
  cols (frame_at σ df) !! closeCol = Some (VFloat <$> s) →
  nrows (frame_at σ df) = length s →
  1 ≤ numPeriods ≤ Z.of_nat (length s) →
  closeCol ≠ ema_name numPeriods →
  EMA df closeCol numPeriods σ
  = (σ ++ [with_floats (frame_at σ df) (ema_name numPeriods)
             (ema_values s (Z.to_nat numPeriods))], Returned (length σ)).
Proof.
  intros Hclose Hrows Hp Hne.
  set (p := Z.to_nat numPeriods). set (d := frame_at σ df) in *.
  assert (numPeriods = Z.of_nat p) as Hnp by lia. rewrite Hnp in *. clearbody p.
  unfold EMA.
  rewrite (bind_returned _ _ σ (σ ++ [d]) (length σ)) by done.
  rewrite (bind_returned _ _ _ _ _ (set_column_last _ _ _ _)).
  unfold py_truediv. rewrite decide_False by lia.
  rewrite (bind_returned _ _ _ _ (truediv_int 2 (Z.of_nat p + 1)) eq_refl).
  rewrite (bind_returned _ _ _ _ _ (df_len_last _ _)).
  rewrite nrows_with_floats, Hrows.
  rewrite <- (ema_partial_warmup s p) by lia.
  unfold py_range.
  replace (Z.of_nat p - 1) with (Z.of_nat (p - 1)) by lia.
  replace (Z.of_nat (length s) - Z.of_nat (p - 1))
    with (Z.of_nat (length s - (p - 1))) by lia.
  rewrite (bind_returned _ _ _ _ tt
             (EMA_loop σ d closeCol p s Hclose ltac:(lia) Hne
                (length s - (p - 1))%nat (p - 1)%nat ltac:(lia) ltac:(lia))).
  done.
Qed.

(** With a period beyond the series the loop has no position to visit. *)
Lemma EMA_run_long σ df closeCol (numPeriods : Z) :
  Z.of_nat (nrows (frame_at σ df)) < numPeriods →
  EMA df closeCol numPeriods σ
  = (σ ++ [with_floats (frame_at σ df) (ema_name numPeriods)
             (replicate (nrows (frame_at σ df)) NaN)], Returned (length σ)).
Proof.
  intros Hp. unfold EMA.
  rewrite (bind_returned _ _ σ (σ ++ [frame_at σ df]) (length σ)) by done.
  rewrite (bind_returned _ _ _ _ _ (set_column_last _ _ _ _)).
  unfold py_truediv. rewrite decide_False by lia.
  rewrite (bind_returned _ _ _ _ (truediv_int 2 (numPeriods + 1)) eq_refl).
  rewrite (bind_returned _ _ _ _ _ (df_len_last _ _)).
  rewrite nrows_with_floats. unfold py_range. rewrite seqZ_nil by lia.
  done.
Qed.

(** *** The scan of the specification *)

Lemma length_spec_generateSignals h s1 s2 s3 :
  length s2 = length s1 → length s3 = length s1 →
  length (spec_generateSignals h s1 s2 s3) = length s1.
Proof.
  revert h s2 s3. induction s1 as [|a s1 IH]; intros h [|b s2] [|c s3] H2 H3;
    simplify_eq/=; auto.
Qed.

(** The step of the specification with its conditions grouped as the code
    evaluates them. *)
Lemma spec_signal_cases (h : bool) (a b c : F) :
  spec_signal h a b c =
  if isnan a || (isnan b || isnan c) then (NONE, h)
  else if flt b a && (flt c b && bool_decide (h = false)) then (BUY, true)
  else if fgt b a && (fgt c b && bool_decide (h = true)) then (SELL, false)
  else (NONE, h).
Proof.
  unfold spec_signal.
  destruct (isnan a), (isnan b), (isnan c), (flt b a), (flt c b),
    (fgt b a), (fgt c b), h; reflexivity.
Qed.

Lemma spec_scan_lookup s1 : ∀ h s2 s3 (j : nat) a b c,
  s1 !! j = Some a → s2 !! j = Some b → s3 !! j = Some c →
  let hj := spec_holding h (take j s1) (take j s2) (take j s3) in
  spec_generateSignals h s1 s2 s3 !! j = Some (spec_signal hj a b c).1 ∧
  spec_holding h (take (S j) s1) (take (S j) s2) (take (S j) s3)
  = (spec_signal hj a b c).2.
Proof.
  induction s1 as [|a0 s1 IH]; intros h [|b0 s2] [|c0 s3] j a b c H1 H2 H3;
    try done.
  destruct j as [|j].
  - simplify_eq/=. split; [done|]. by destruct s1, s2, s3.
  - simpl in H1, H2, H3. cbn [take spec_generateSignals spec_holding lookup list_lookup].
    by apply IH.
Qed.

(** *** The loop of [EMA_trading_strategy] *)

Lemma isnan_item_some r name (j : nat) c x σ :
  cols (frame_at σ r) !! name = Some c → c !! j = Some (VFloat x) →
  isnan_item r name (Z.of_nat j) σ = (σ, Returned (isnan x)).
Proof.
  intros Hc Hx. unfold isnan_item.
  by rewrite (bind_returned _ _ _ _ _ (float_item_some _ _ _ _ _ _ Hc Hx)).
Qed.

Lemma lt_items_some r a b (j : nat) ca cb x y σ :
  cols (frame_at σ r) !! a = Some ca → ca !! j = Some (VFloat x) →
  cols (frame_at σ r) !! b = Some cb → cb !! j = Some (VFloat y) →
  lt_items r a b (Z.of_nat j) σ = (σ, Returned (flt x y)).
Proof.
  intros Ha Hx Hb Hy. unfold lt_items.
  rewrite (bind_returned _ _ _ _ _ (float_item_some _ _ _ _ _ _ Ha Hx)).
  by rewrite (bind_returned _ _ _ _ _ (float_item_some _ _ _ _ _ _ Hb Hy)).
Qed.

Lemma gt_items_some r a b (j : nat) ca cb x y σ :
  cols (frame_at σ r) !! a = Some ca → ca !! j = Some (VFloat x) →
  cols (frame_at σ r) !! b = Some cb → cb !! j = Some (VFloat y) →
  gt_items r a b (Z.of_nat j) σ = (σ, Returned (fgt x y)).
Proof.
  intros Ha Hx Hb Hy. unfold gt_items.
  rewrite (bind_returned _ _ _ _ _ (float_item_some _ _ _ _ _ _ Ha Hx)).
  by rewrite (bind_returned _ _ _ _ _ (float_item_some _ _ _ _ _ _ Hb Hy)).
Qed.

Lemma py_or_returned (a b : py bool) σ x y :
  a σ = (σ, Returned x) → b σ = (σ, Returned y) →
  py_or a b σ = (σ, Returned (x || y)).
Proof.
  intros Ha Hb. unfold py_or. rewrite (bind_returned _ _ _ _ _ Ha).
  by destruct x.
Qed.

Lemma py_and_returned (a b : py bool) σ x y :
  a σ = (σ, Returned x) → b σ = (σ, Returned y) →
  py_and a b σ = (σ, Returned (x && y)).
Proof.
  intros Ha Hb. unfold py_and. rewrite (bind_returned _ _ _ _ _ Ha).
  by destruct x.
Qed.

Lemma strategy_body_step σ d e1 e2 e3 s1 s2 s3 (j : nat) :
  cols d !! e1 = Some (VFloat <$> s1) →
  cols d !! e2 = Some (VFloat <$> s2) →
  cols d !! e3 = Some (VFloat <$> s3) →
  length s2 = length s1 → length s3 = length s1 →
  e1 ≠ signal_col → e2 ≠ signal_col → e3 ≠ signal_col →
  (j < length s1)%nat →
  let final := signal_cell <$> spec_generateSignals false s1 s2 s3 in
  let flag i := spec_holding false (take i s1) (take i s2) (take i s3) in
  strategy_body (length σ) e1 e2 e3 (Z.of_nat j) (flag j)
    (σ ++ [with_column d signal_col (filled (VFloat NaN) final (length s1) j)])
  = (σ ++ [with_column d signal_col (filled (VFloat NaN) final (length s1) (S j))],
     Returned (flag (S j))).
Proof.
  intros H1 H2 H3 Hl2 Hl3 Hn1 Hn2 Hn3 Hj final flag.
  destruct (lookup_lt_is_Some_2 s1 j) as [a Ha]; [lia|].
  destruct (lookup_lt_is_Some_2 s2 j) as [b Hb]; [lia|].
  destruct (lookup_lt_is_Some_2 s3 j) as [c Hc]; [lia|].
  destruct (spec_scan_lookup s1 false s2 s3 j a b c Ha Hb Hc) as [Hsig Hflag].
  fold (flag j) in Hsig, Hflag. fold (flag (S j)) in Hflag.
  assert (final !! j = Some (signal_cell (spec_signal (flag j) a b c).1)) as Hfin.
  { unfold final. by rewrite list_lookup_fmap, Hsig. }
  assert (length final = length s1) as Hlen.
  { unfold final. rewrite length_fmap. by apply length_spec_generateSignals. }
  set (D := with_column d signal_col (filled (VFloat NaN) final (length s1) j)).
  assert (∀ e (s : list F), e ≠ signal_col → cols d !! e = Some (VFloat <$> s) →
            cols (frame_at (σ ++ [D]) (length σ)) !! e = Some (VFloat <$> s)) as Hread.
  { intros e s He Hs. rewrite frame_at_last. unfold D. by rewrite with_column_other. }
  assert (∀ (s : list F) x, s !! j = Some x → (VFloat <$> s) !! j = Some (VFloat x))
    as Hcell.
  { intros s x Hx. by rewrite list_lookup_fmap, Hx. }
  pose proof (Hread _ _ Hn1 H1) as R1. pose proof (Hread _ _ Hn2 H2) as R2.
  pose proof (Hread _ _ Hn3 H3) as R3.
  pose proof (Hcell _ _ Ha) as Ca. pose proof (Hcell _ _ Hb) as Cb.
  pose proof (Hcell _ _ Hc) as Cc.
  assert (∀ v (b' : bool),
            (set_item (length σ) signal_col (Z.of_nat j) v ;;; ret b') (σ ++ [D])
            = (σ ++ [with_column d signal_col
                       (<[j := v]> (filled (VFloat NaN) final (length s1) j))],
               Returned b')) as Hset.
  { intros v b'. unfold D. erewrite bind_returned; [done|].
    apply set_item_last. rewrite length_filled; lia. }
  unfold strategy_body.
  rewrite (bind_returned _ _ _ (σ ++ [D]) (isnan a || (isnan b || isnan c))).
  2:{ apply py_or_returned; [by eapply isnan_item_some|].
      apply py_or_returned; by eapply isnan_item_some. }
  rewrite Hflag. rewrite spec_signal_cases in Hfin |- *. clear Hflag Hsig.
  destruct (isnan a || (isnan b || isnan c)).
  { unfold D. by rewrite <- filled_skip by (done || lia). }
  rewrite (bind_returned _ _ _ (σ ++ [D])
             (flt b a && (flt c b && bool_decide (flag j = false)))).
  2:{ apply py_and_returned; [by eapply lt_items_some|].
      apply py_and_returned; [by eapply lt_items_some|done]. }
  destruct (flt b a && (flt c b && bool_decide (flag j = false))).
  { rewrite Hset. by rewrite filled_step by (done || lia). }
  rewrite (bind_returned _ _ _ (σ ++ [D])
             (fgt b a && (fgt c b && bool_decide (flag j = true)))).
  2:{ apply py_and_returned; [by eapply gt_items_some|].
      apply py_and_returned; [by eapply gt_items_some|done]. }
  destruct (fgt b a && (fgt c b && bool_decide (flag j = true))).
  { rewrite Hset. by rewrite filled_step by (done || lia). }
  unfold D. by rewrite <- filled_skip by (done || lia).
Qed.

Lemma strategy_loop σ d e1 e2 e3 s1 s2 s3 :
  cols d !! e1 = Some (VFloat <$> s1) →
  cols d !! e2 = Some (VFloat <$> s2) →
  cols d !! e3 = Some (VFloat <$> s3) →
  length s2 = length s1 → length s3 = length s1 →
  e1 ≠ signal_col → e2 ≠ signal_col → e3 ≠ signal_col →
  let final := signal_cell <$> spec_generateSignals false s1 s2 s3 in
  let flag i := spec_holding false (take i s1) (take i s2) (take i s3) in
  ∀ (m j : nat), (j + m = length s1)%nat →
  for_each (seqZ (Z.of_nat j) (Z.of_nat m)) (strategy_body (length σ) e1 e2 e3) (flag j)
    (σ ++ [with_column d signal_col (filled (VFloat NaN) final (length s1) j)])
  = (σ ++ [with_column d signal_col final], Returned (flag (length s1))).
Proof.
  intros H1 H2 H3 Hl2 Hl3 Hn1 Hn2 Hn3 final flag.
  induction m as [|m IH]; intros j Hm.
  - simpl. rewrite Nat.add_0_r in Hm. subst j.
    rewrite filled_full; [done|]. unfold final.
    rewrite length_fmap. by apply length_spec_generateSignals.
  - rewrite seqZ_cons by lia. cbn [for_each].
    rewrite (bind_returned _ _ _ _ _
      (strategy_body_step σ d e1 e2 e3 s1 s2 s3 j H1 H2 H3 Hl2 Hl3 Hn1 Hn2 Hn3
         ltac:(lia))).
    replace (Z.succ (Z.of_nat j)) with (Z.of_nat (S j)) by lia.
    replace (Z.pred (Z.of_nat (S m))) with (Z.of_nat m) by lia.
    apply IH; lia.
Qed.

(** On three float columns of the frame's length, [EMA_trading_strategy]
    returns a new frame: the copy of its argument with the signal column
    of the specification's scan. *)
Lemma EMA_trading_strategy_run σ df e1 e2 e3 s1 s2 s3 :
  cols (frame_at σ df) !! e1 = Some (VFloat <$> s1) →
  cols (frame_at σ df) !! e2 = Some (VFloat <$> s2) →
  cols (frame_at σ df) !! e3 = Some (VFloat <$> s3) →
  nrows (frame_at σ df) = length s1 →
  length s2 = length s1 → length s3 = length s1 →
  e1 ≠ signal_col → e2 ≠ signal_col → e3 ≠ signal_col →
  EMA_trading_strategy df e1 e2 e3 σ
  = (σ ++ [with_column (frame_at σ df) signal_col
             (signal_cell <$> spec_generateSignals false s1 s2 s3)],
     Returned (length σ)).
Proof.
  intros H1 H2 H3 Hrows Hl2 Hl3 Hn1 Hn2 Hn3.
  set (d := frame_at σ df) in *. unfold EMA_trading_strategy.
  rewrite (bind_returned _ _ σ (σ ++ [d]) (length σ)) by done.
  rewrite (bind_returned _ _ _ _ _ (set_column_last _ _ _ _)).
  rewrite (bind_returned _ _ _ _ _ (df_len_last _ _)).
  rewrite nrows_with_floats, Hrows. unfold py_range.
  replace (Z.of_nat (length s1) - 0) with (Z.of_nat (length s1)) by lia.
  unfold with_floats. rewrite fmap_replicate.
  rewrite <- (filled_none (VFloat NaN)
               (signal_cell <$> spec_generateSignals false s1 s2 s3) (length s1)).
  change 0 with (Z.of_nat 0).
  change false with (spec_holding false (take 0 s1) (take 0 s2) (take 0 s3)) at 1.
  rewrite (bind_returned _ _ _ _ _
    (strategy_loop σ d e1 e2 e3 s1 s2 s3 H1 H2 H3 Hl2 Hl3 Hn1 Hn2 Hn3
       (length s1) 0%nat ltac:(lia))).
  done.
Qed.

(** *** The loop of [assessTradingStrategy] *)

Lemma df_len_run df σ :
  df_len df σ = (σ, Returned (Z.of_nat (nrows (frame_at σ df)))).
Proof. done. Qed.

Lemma signal_is_some r name (j : nat) c v t σ :
  cols (frame_at σ r) !! name = Some c → c !! j = Some v →
  signal_is r name (Z.of_nat j) t σ = (σ, Returned (is_str v t)).
Proof.
  intros Hc Hv. unfold signal_is.
  by rewrite (bind_returned _ _ _ _ _ (get_item_some _ _ _ _ _ _ Hc Hv)).
Qed.

Lemma assess_body_run σ df closeCol sigCol sigs closes (j : nat) v x st :
  cols (frame_at σ df) !! sigCol = Some sigs →
  cols (frame_at σ df) !! closeCol = Some (VFloat <$> closes) →
  sigs !! j = Some v → closes !! j = Some x →
  assess_body df closeCol sigCol (Z.of_nat j) st σ
  = (σ, Returned (snapshot_step
                    (bool_decide (Z.of_nat j = Z.of_nat (nrows (frame_at σ df)) - 1))
                    (trade_step v x st))).
Proof.
  intros Hs Hc Hv Hx.
  assert ((VFloat <$> closes) !! j = Some (VFloat x)) as Hx'.
  { by rewrite list_lookup_fmap, Hx. }
  unfold assess_body.
  rewrite (bind_returned _ _ σ σ (trade_step v x st)).
  { unfold assess_snapshot. rewrite (bind_returned _ _ _ _ _ (df_len_run _ _)).
    unfold snapshot_step. by case_decide; [rewrite bool_decide_true|rewrite bool_decide_false]. }
  unfold assess_trade, trade_step.
  rewrite (bind_returned _ _ σ σ (is_str v "BUY" && bool_decide (bought st = false))).
  2:{ apply py_and_returned; [by eapply signal_is_some|done]. }
  destruct (is_str v "BUY" && bool_decide (bought st = false)).
  { by rewrite (bind_returned _ _ _ _ _ (float_item_some _ _ _ _ _ _ Hc Hx')). }
  rewrite (bind_returned _ _ σ σ (is_str v "SELL" && bool_decide (bought st = true))).
  2:{ apply py_and_returned; [by eapply signal_is_some|done]. }
  destruct (is_str v "SELL" && bool_decide (bought st = true)); [|done].
  rewrite (bind_returned _ _ _ _ _ (float_item_some _ _ _ _ _ _ Hc Hx')).
  cbv zeta. by destruct (fge _ _).
Qed.

Lemma assess_prefix_run σ df closeCol sigCol sigs closes init (j : nat) :
  cols (frame_at σ df) !! sigCol = Some sigs →
  cols (frame_at σ df) !! closeCol = Some (VFloat <$> closes) →
  (j ≤ length sigs)%nat → (j ≤ length closes)%nat →
  assess_prefix df closeCol sigCol init (Z.of_nat j) σ
  = (σ, Returned (assess_states sigs closes (nrows (frame_at σ df))
                    (init_locals init) j)).
Proof.
  intros Hs Hc. induction j as [|j IH]; intros Hj1 Hj2; [done|].
  unfold assess_prefix in *.
  replace (Z.of_nat (S j)) with (Z.of_nat j + 1) by lia.
  rewrite py_range_snoc by lia. rewrite for_each_app.
  rewrite (bind_returned _ _ _ _ _ (IH ltac:(lia) ltac:(lia))).
  destruct (lookup_lt_is_Some_2 sigs j) as [v Hv]; [lia|].
  destruct (lookup_lt_is_Some_2 closes j) as [x Hx]; [lia|].
  cbn [for_each assess_states]. rewrite Hv, Hx.
  by rewrite (bind_returned _ _ _ _ _
               (assess_body_run σ df closeCol sigCol sigs closes j v x _ Hs Hc Hv Hx)).
Qed.

Lemma assess_loop_run σ df closeCol sigCol sigs closes init :
  cols (frame_at σ df) !! sigCol = Some sigs →
  cols (frame_at σ df) !! closeCol = Some (VFloat <$> closes) →
  length sigs = nrows (frame_at σ df) → length closes = nrows (frame_at σ df) →
  assess_loop df closeCol sigCol init σ
  = (σ, Returned (assess_states sigs closes (nrows (frame_at σ df))
                    (init_locals init) (nrows (frame_at σ df)))).
Proof.
  intros Hs Hc Hl1 Hl2. unfold assess_loop.
  rewrite (bind_returned _ _ _ _ _ (df_len_run _ _)).
  apply (assess_prefix_run _ _ _ _ sigs closes); (done || lia).
Qed.

(** *** Counting the trades *)

Lemma pairs_snoc (l : list (@value F)) : ∀ (h : bool) v,
  completed_pairs h (l ++ [v])
  = (completed_pairs h l +
     (if is_str v "BUY" && negb (holding_after h l) then 0
      else if is_str v "SELL" && holding_after h l then 1 else 0))%nat
  ∧ holding_after h (l ++ [v])
    = (if is_str v "BUY" && negb (holding_after h l) then true
       else if is_str v "SELL" && holding_after h l then false
       else holding_after h l).
Proof.
  induction l as [|w l IH]; intros h v.
  - simpl. destruct (is_str v "BUY" && negb h); [done|].
    by destruct (is_str v "SELL" && h).
  - cbn [app completed_pairs holding_after].
    destruct (is_str w "BUY" && negb h); [apply IH|].
    destruct (is_str w "SELL" && h); [|apply IH].
    destruct (IH false v) as [-> ->]. split; [lia|done].
Qed.

Lemma snapshot_step_fields (last : bool) (st : @locals F) :
  investment (snapshot_step last st) = investment st ∧
  buyPrice (snapshot_step last st) = buyPrice st ∧
  bought (snapshot_step last st) = bought st ∧
  numSuccess (snapshot_step last st) = numSuccess st ∧
  numFailure (snapshot_step last st) = numFailure st.
Proof. by destruct last. Qed.

Lemma trade_step_count (v : @value F) (x : F) (st : locals) :
  numSuccess (trade_step v x st) + numFailure (trade_step v x st)
  = numSuccess st + numFailure st +
    (if is_str v "BUY" && negb (bought st) then 0
     else if is_str v "SELL" && bought st then 1 else 0)
  ∧ bought (trade_step v x st)
    = (if is_str v "BUY" && negb (bought st) then true
       else if is_str v "SELL" && bought st then false
       else bought st).
Proof.
  unfold trade_step. destruct (bought st) eqn:Hb, (is_str v "BUY"), (is_str v "SELL");
    simpl; rewrite ?Hb; try (split; [lia|done]);
    destruct (fge _ _); simpl; split; (lia || done).
Qed.

Lemma trade_step_nonneg (v : @value F) (x : F) (st : locals) :
  0 ≤ numSuccess st → 0 ≤ numFailure st →
  0 ≤ numSuccess (trade_step v x st) ∧ 0 ≤ numFailure (trade_step v x st).
Proof.
  intros Hs Hf. unfold trade_step.
  destruct (is_str v "BUY" && bool_decide (bought st = false)); [done|].
  destruct (is_str v "SELL" && bool_decide (bought st = true)); [|done].
  destruct (fge _ _); simpl; lia.
Qed.

Lemma assess_states_S sigs closes n (init : @locals F) (j : nat) v x :
  sigs !! j = Some v → closes !! j = Some x →
  assess_states sigs closes n init (S j)
  = snapshot_step (bool_decide (Z.of_nat j = Z.of_nat n - 1))
      (trade_step v x (assess_states sigs closes n init j)).
Proof. intros Hv Hx. simpl. by rewrite Hv, Hx. Qed.

(** The counters and the flag of the loop follow the scan of the signals. *)
Lemma assess_states_count sigs closes n (init : F) (j : nat) :
  (j ≤ length sigs)%nat → (j ≤ length closes)%nat →
  let st := assess_states sigs closes n (init_locals init) j in
  numSuccess st + numFailure st = Z.of_nat (completed_pairs false (take j sigs))
  ∧ bought st = holding_after false (take j sigs)
  ∧ 0 ≤ numSuccess st ∧ 0 ≤ numFailure st.
Proof.
  induction j as [|j IH]; intros Hj1 Hj2; [by rewrite take_0|].
  destruct (lookup_lt_is_Some_2 sigs j) as [v Hv]; [lia|].
  destruct (lookup_lt_is_Some_2 closes j) as [x Hx]; [lia|].
  destruct (IH ltac:(lia) ltac:(lia)) as (Hcount & Hflag & Hs & Hf).
  cbv zeta. rewrite (assess_states_S _ _ _ _ _ v x Hv Hx).
  set (st := assess_states sigs closes n (init_locals init) j) in *.
  destruct (snapshot_step_fields (bool_decide (Z.of_nat j = Z.of_nat n - 1))
              (trade_step v x st)) as (_ & _ & -> & -> & ->).
  destruct (trade_step_count v x st) as [Hc Hb].
  rewrite (take_S_r _ _ _ Hv).
  destruct (pairs_snoc (take j sigs) false v) as [-> ->].
  rewrite Hc, Hb, Hcount, Hflag.
  destruct (trade_step_nonneg v x st Hs Hf) as [Hs' Hf'].
  split; [|done].
  destruct (is_str v "BUY" && negb (holding_after false (take j sigs))); [lia|].
  destruct (is_str v "SELL" && holding_after false (take j sigs)); lia.
Qed.

Lemma trade_step_enter (v : @value F) (x : F) (st : locals) :
  is_str v "BUY" = true → bought st = false →
  trade_step v x st
  = mkLocals (investment st) (inv_numpy st) (fmul x (fadd (of_int 1) fee))
      (sellPrice st) true (numSuccess st) (numFailure st) (endingInvestmentAmount st).
Proof. intros Hv Hb. unfold trade_step. by rewrite Hv, Hb. Qed.

Lemma trade_step_idle (v : @value F) (x : F) (st : locals) :
  is_str v "SELL" = false → bought st = true → trade_step v x st = st.
Proof.
  intros Hv Hb. unfold trade_step. rewrite Hv, Hb.
  by rewrite andb_false_r.
Qed.

(** After an entry that no later 'SELL' closes, the investment and the two
    counters stay as they were when the 'BUY' was reached. *)
Lemma assess_states_trailing sigs closes n (init : F) pre post :
  sigs = pre ++ VStr "BUY" :: post → length closes = length sigs →
  holding_after false pre = false →
  (∀ v, v ∈ post → is_str v "SELL" = false) →
  ∀ k : nat, (length pre + 1 + k ≤ length sigs)%nat →
  let st0 := assess_states sigs closes n (init_locals init) (length pre) in
  let st := assess_states sigs closes n (init_locals init) (length pre + 1 + k) in
  investment st = investment st0 ∧ numSuccess st = numSuccess st0 ∧
  numFailure st = numFailure st0 ∧ bought st = true.
Proof.
  intros Hsigs Hlen Hflat Hpost k. induction k as [|k IH]; intros Hk st0 st.
  - unfold st. replace (length pre + 1 + 0)%nat with (S (length pre)) by lia.
    assert (sigs !! length pre = Some (VStr "BUY")) as Hv.
    { rewrite Hsigs. by rewrite list_lookup_middle. }
    destruct (lookup_lt_is_Some_2 closes (length pre)) as [x Hx]; [lia|].
    rewrite (assess_states_S _ _ _ _ _ _ x Hv Hx). fold st0.
    destruct (snapshot_step_fields (bool_decide (Z.of_nat (length pre) = Z.of_nat n - 1))
                (trade_step (VStr "BUY") x st0)) as (-> & _ & -> & -> & ->).
    rewrite trade_step_enter; [done|done|]. unfold st0.
    destruct (assess_states_count sigs closes n init (length pre)) as (_ & -> & _);
      [lia|lia|].
    rewrite Hsigs. by rewrite take_app_length.
  - destruct (IH ltac:(lia)) as (Hi & Hs & Hf & Hb). fold st0 in Hi, Hs, Hf.
    unfold st. replace (length pre + 1 + S k)%nat with (S (length pre + 1 + k)) by lia.
    destruct (lookup_lt_is_Some_2 sigs (length pre + 1 + k)) as [v Hv]; [lia|].
    destruct (lookup_lt_is_Some_2 closes (length pre + 1 + k)) as [x Hx]; [lia|].
    rewrite (assess_states_S _ _ _ _ _ v x Hv Hx).
    set (b := bool_decide _).
    destruct (snapshot_step_fields b
                (trade_step v x (assess_states sigs closes n (init_locals init)
                                   (length pre + 1 + k))))
      as (-> & _ & -> & -> & ->).
    rewrite trade_step_idle; [done| |done].
    apply Hpost. rewrite Hsigs in Hv.
    rewrite lookup_app_r in Hv by lia.
    replace (length pre + 1 + k - length pre)%nat with (S k) in Hv by lia.
    simpl in Hv. by eapply list_elem_of_lookup_2.
Qed.

(** *** What a call can touch *)

Lemma local_ret r {A} (a : A) : local_to (F:=F) r (ret a).
Proof. intros σ d _. by exists d. Qed.

Lemma local_raise r {A} e : local_to (F:=F) r (raise e : py A).
Proof. intros σ d _. by exists d. Qed.

Lemma local_bind r {A B} (m : py A) (k : A → py B) :
  local_to r m → (∀ a, local_to r (k a)) → local_to r (bind m k).
Proof.
  intros Hm Hk σ d Hr. destruct (Hm σ d Hr) as [d1 H1]. unfold bind.
  destruct (m (σ ++ [d])) as [σ1 [a|e]]; simpl in H1; subst σ1.
  - apply Hk, Hr.
  - by exists d1.
Qed.

Lemma local_for_each r {A} (l : list Z) (body : Z → A → py A) a :
  (∀ i a, local_to r (body i a)) → local_to r (for_each l body a).
Proof.
  intros Hbody. revert a. induction l as [|i l IH]; intros a; simpl.
  - apply local_ret.
  - apply local_bind; auto.
Qed.

Lemma local_if r {A} (b : bool) (m1 m2 : py A) :
  local_to r m1 → local_to r m2 → local_to r (if b then m1 else m2).
Proof. by destruct b. Qed.

Lemma local_get_frame r r' : local_to r (get_frame (F:=F) r').
Proof. intros σ d _. by exists d. Qed.

Lemma local_put_frame r d0 : local_to r (put_frame (F:=F) r d0).
Proof.
  intros σ d <-. exists d0. unfold put_frame. simpl. apply insert_last.
Qed.

Lemma local_get_column r r' name : local_to r (get_column (F:=F) r' name).
Proof.
  unfold get_column. apply local_bind; [apply local_get_frame|].
  intros d. destruct (cols d !! name); [apply local_ret|apply local_raise].
Qed.

Lemma local_get_item r r' name i : local_to r (get_item (F:=F) r' name i).
Proof.
  unfold get_item. apply local_bind; [apply local_get_column|].
  intros c. case_decide; [|apply local_raise].
  destruct (c !! Z.to_nat i); [apply local_ret|apply local_raise].
Qed.

Lemma local_get_slice r r' name a b : local_to r (get_slice (F:=F) r' name a b).
Proof.
  unfold get_slice. apply local_bind; [apply local_get_column|].
  intros c. apply local_ret.
Qed.

Lemma local_set_item r name i v : local_to r (set_item (F:=F) r name i v).
Proof.
  unfold set_item. apply local_bind; [apply local_get_column|].
  intros c. case_decide; [|apply local_ret].
  apply local_bind; [apply local_get_frame|]. intros d. apply local_put_frame.
Qed.

Lemma local_set_column r name v : local_to r (set_column (F:=F) r name v).
Proof.
  unfold set_column. apply local_bind; [apply local_get_frame|].
  intros d. apply local_put_frame.
Qed.

Lemma local_df_len r r' : local_to r (df_len (F:=F) r').
Proof.
  unfold df_len. apply local_bind; [apply local_get_frame|].
  intros d. apply local_ret.
Qed.

Lemma local_as_float r v : local_to r (as_float (F:=F) v).
Proof. destruct v; [apply local_ret|apply local_raise]. Qed.

Lemma local_as_floats r l : local_to r (as_floats (F:=F) l).
Proof.
  induction l as [|v l IH]; simpl; [apply local_ret|].
  apply local_bind; [apply local_as_float|]. intros x.
  apply local_bind; [apply IH|]. intros xs. apply local_ret.
Qed.

Lemma local_py_truediv r a b : local_to r (py_truediv (F:=F) a b).
Proof. unfold py_truediv. case_decide; [apply local_raise|apply local_ret]. Qed.

Lemma local_py_or r (a b : py bool) :
  local_to r a → local_to r b → local_to r (py_or a b).
Proof.
  intros Ha Hb. unfold py_or. apply local_bind; [done|].
  intros x. apply local_if; [apply local_ret|done].
Qed.

Lemma local_py_and r (a b : py bool) :
  local_to r a → local_to r b → local_to r (py_and a b).
Proof.
  intros Ha Hb. unfold py_and. apply local_bind; [done|].
  intros x. apply local_if; [done|apply local_ret].
Qed.

Lemma local_float_item r r' name i : local_to r (float_item (F:=F) r' name i).
Proof.
  unfold float_item. apply local_bind; [apply local_get_item|].
  intros v. apply local_as_float.
Qed.

Lemma local_isnan_item r r' name i : local_to r (isnan_item (F:=F) r' name i).
Proof.
  unfold isnan_item. apply local_bind; [apply local_float_item|].
  intros x. apply local_ret.
Qed.

Lemma local_lt_items r r' a b i : local_to r (lt_items (F:=F) r' a b i).
Proof.
  unfold lt_items. apply local_bind; [apply local_float_item|]. intros x.
  apply local_bind; [apply local_float_item|]. intros y. apply local_ret.
Qed.

Lemma local_gt_items r r' a b i : local_to r (gt_items (F:=F) r' a b i).
Proof.
  unfold gt_items. apply local_bind; [apply local_float_item|]. intros x.
  apply local_bind; [apply local_float_item|]. intros y. apply local_ret.
Qed.

Create HintDb py_local.
#[local] Hint Resolve local_ret local_raise local_get_frame local_put_frame
  local_get_column local_get_item local_get_slice local_set_item
  local_set_column local_df_len local_as_float local_as_floats
  local_py_truediv local_py_or local_py_and local_float_item
  local_isnan_item local_lt_items local_gt_items : py_local.

Ltac local_step :=
  first [ solve [auto with py_local]
        | apply local_bind; [|intros ?]
        | apply local_if
        | apply local_for_each; intros ? ?
        | case_decide ].

Lemma local_EMA_body r closeCol numPeriods k i u :
  local_to r (EMA_body (F:=F) r closeCol numPeriods k i u).
Proof. unfold EMA_body. repeat local_step. Qed.

Lemma local_strategy_body r e1 e2 e3 i b :
  local_to r (strategy_body (F:=F) r e1 e2 e3 i b).
Proof. unfold strategy_body. repeat local_step. Qed.

(** The outcome of a sequence that ends by returning a fixed value. *)
Lemma bind_ret_outcome {A B} (m : py A) (b b' : B) σ :
  (bind m (λ _, ret b) σ).2 = Returned b' → b' = b.
Proof.
  unfold bind. destruct (m σ) as [σ1 [a|e]]; simpl; congruence.
Qed.

Lemma bind_outcome {A B} (m : py A) (k : A → py B) σ (b : B) :
  (bind m k σ).2 = Returned b →
  ∃ a σ1, m σ = (σ1, Returned a) ∧ (k a σ1).2 = Returned b.
Proof.
  unfold bind. destruct (m σ) as [σ1 [a|e]]; simpl; [eauto|done].
Qed.

Lemma EMA_store σ df closeCol numPeriods :
  ∃ d', (EMA df closeCol numPeriods σ).1 = σ ++ [d'].
Proof.
  unfold EMA.
  rewrite (bind_returned _ _ σ (σ ++ [frame_at σ df]) (length σ)) by done.
  eapply (local_bind (length σ)); [apply local_set_column| |done].
  intros _. apply local_bind; [apply local_py_truediv|]. intros k.
  apply local_bind; [apply local_df_len|]. intros n.
  apply local_bind; [|intros; apply local_ret].
  apply local_for_each. intros i u. apply local_EMA_body.
Qed.

Lemma EMA_result σ df closeCol numPeriods r :
  (EMA df closeCol numPeriods σ).2 = Returned r → r = length σ.
Proof.
  unfold EMA.
  rewrite (bind_returned _ _ σ (σ ++ [frame_at σ df]) (length σ)) by done.
  intros Hr.
  apply bind_outcome in Hr as (_ & σ1 & _ & Hr).
  apply bind_outcome in Hr as (k & σ2 & _ & Hr).
  apply bind_outcome in Hr as (n & σ3 & _ & Hr).
  by apply bind_ret_outcome in Hr.
Qed.

Lemma EMA_trading_strategy_store σ df e1 e2 e3 :
  ∃ d', (EMA_trading_strategy df e1 e2 e3 σ).1 = σ ++ [d'].
Proof.
  unfold EMA_trading_strategy.
  rewrite (bind_returned _ _ σ (σ ++ [frame_at σ df]) (length σ)) by done.
  eapply (local_bind (length σ)); [apply local_set_column| |done].
  intros _. apply local_bind; [apply local_df_len|]. intros n.
  apply local_bind; [|intros; apply local_ret].
  apply local_for_each. intros i u. apply local_strategy_body.
Qed.

Lemma EMA_trading_strategy_result σ df e1 e2 e3 r :
  (EMA_trading_strategy df e1 e2 e3 σ).2 = Returned r → r = length σ.
Proof.
  unfold EMA_trading_strategy.
  rewrite (bind_returned _ _ σ (σ ++ [frame_at σ df]) (length σ)) by done.
  intros Hr.
  apply bind_outcome in Hr as (_ & σ1 & _ & Hr).
  apply bind_outcome in Hr as (n & σ2 & _ & Hr).
  by apply bind_ret_outcome in Hr.
Qed.

(** The objects of a store are those of any store that extends it. *)
Lemma lookup_extended σ d' r d : σ !! r = Some d → (σ ++ [d']) !! r = Some d.
Proof. intros Hr. by apply lookup_app_l_Some. Qed.

(** *** Alternation *)

Lemma spec_signals_alternate s1 : ∀ (h : bool) s2 s3,
  alternates h (signal_cell <$> spec_generateSignals h s1 s2 s3).
Proof.
  induction s1 as [|a s1 IH]; intros h [|b s2] [|c s3]; try done.
  cbn [spec_generateSignals fmap list_fmap alternates].
  pose proof (IH (spec_signal h a b c).2 s2 s3) as Hrest.
  unfold spec_signal in *.
  destruct (isnan a || isnan b || isnan c); [done|].
  destruct (flt b a && flt c b && negb h) eqn:Hbuy.
  { simpl. split; [|done]. destruct h; [|done].
    by rewrite andb_false_r in Hbuy. }
  destruct (fgt b a && fgt c b && h) eqn:Hsell; [|done].
  simpl. split; [|done]. destruct h; [done|].
  by rewrite andb_false_r in Hsell.
Qed.

Lemma is_str_BUY_SELL (v : @value F) : is_str v "BUY" = true → is_str v "SELL" = false.
Proof.
  destruct v as [x|t]; [done|]. simpl. intros Ht.
  apply bool_decide_eq_true in Ht. by subst t.
Qed.

(** Between a 'BUY' and a later 'BUY' there is a 'SELL'. *)
Lemma alternates_between (l2 l3 : list (@value F)) w :
  is_str w "BUY" = true → alternates true (l2 ++ w :: l3) →
  ∃ (k : nat) v, l2 !! k = Some v ∧ is_str v "SELL" = true.
Proof.
  intros Hw. induction l2 as [|v l2 IH]; simpl.
  - rewrite Hw. by intros [? _].
  - destruct (is_str v "BUY") eqn:Hb; [by intros [? _]|].
    destruct (is_str v "SELL") eqn:Hs.
    + intros _. by exists 0%nat, v.
    + intros Halt. destruct (IH Halt) as (k & u & Hk & Hu).
      by exists (S k), u.
Qed.

(** Before a 'SELL' there is a 'BUY' with no signal in between, unless
    the scan started while holding and met no signal. *)
Lemma alternates_before (l1 l3 : list (@value F)) w : ∀ h : bool,
  is_str w "SELL" = true → alternates h (l1 ++ w :: l3) →
  (h = true ∧ ∀ (k : nat) v, l1 !! k = Some v →
                 is_str v "BUY" = false ∧ is_str v "SELL" = false)
  ∨ (∃ (i : nat) u, l1 !! i = Some u ∧ is_str u "BUY" = true ∧
       ∀ (k : nat) v, (i < k)%nat → l1 !! k = Some v →
         is_str v "BUY" = false ∧ is_str v "SELL" = false).
Proof.
  intros h Hw. revert h. induction l1 as [|v l1 IH]; intros h; simpl.
  - rewrite (proj1 (not_true_iff_false _)); [|intros Hb; apply is_str_BUY_SELL in Hb; congruence].
    rewrite Hw. intros [-> _]. left. split; [done|]. intros k v Hk. done.
  - destruct (is_str v "BUY") eqn:Hb.
    { intros [-> Halt]. right. destruct (IH true Halt) as [[_ Hnone]|(i & u & Hi & Hu & Hnone)].
      - exists 0%nat, v. split; [done|]. split; [done|].
        intros [|k] v' Hk Hv'; [lia|]. by apply (Hnone k).
      - exists (S i), u. split; [done|]. split; [done|].
        intros [|k] v' Hk Hv'; [lia|]. apply (Hnone k); [lia|done]. }
    destruct (is_str v "SELL") eqn:Hs.
    { intros [-> Halt]. destruct (IH false Halt) as [[? _]|(i & u & Hi & Hu & Hnone)];
        [done|].
      right. exists (S i), u. split; [done|]. split; [done|].
      intros [|k] v' Hk Hv'; [lia|]. apply (Hnone k); [lia|done]. }
    intros Halt. destruct (IH h Halt) as [[-> Hnone]|(i & u & Hi & Hu & Hnone)].
    + left. split; [done|]. intros [|k] v' Hv'; [by simplify_eq/=|].
      by apply (Hnone k).
    + right. exists (S i), u. split; [done|]. split; [done|].
      intros [|k] v' Hk Hv'; [lia|]. apply (Hnone k); [lia|done].
Qed.

Lemma alternates_app (l1 l2 : list (@value F)) : ∀ h : bool,
  alternates h (l1 ++ l2) → alternates (holding_after h l1) l2.
Proof.
  induction l1 as [|v l1 IH]; intros h; [done|]. simpl.
  destruct (is_str v "BUY") eqn:Hb.
  { intros [-> Halt]. simpl. by apply IH. }
  destruct (is_str v "SELL") eqn:Hs.
  { intros [-> Halt]. simpl. by apply IH. }
  simpl. apply IH.
Qed.

Lemma holding_after_snoc_BUY (l : list (@value F)) (h : bool) w :
  is_str w "BUY" = true → holding_after h (l ++ [w]) = true.
Proof.
  intros Hw. destruct (pairs_snoc l h w) as [_ ->]. rewrite Hw.
  destruct (holding_after h l); [|done]. simpl.
  by rewrite (is_str_BUY_SELL _ Hw).
Qed.

Lemma alternates_no_double_BUY (c : list (@value F)) (i j : nat) vi vj :
  alternates false c → (i < j)%nat →
  c !! i = Some vi → c !! j = Some vj →
  is_str vi "BUY" = true → is_str vj "BUY" = true →
  ∃ (k : nat) vk, (i < k < j)%nat ∧ c !! k = Some vk ∧ is_str vk "SELL" = true.
Proof.
  intros Halt Hij Hi Hj Hbi Hbj.
  rewrite <- (take_drop_middle c i vi Hi) in Halt.
  change (vi :: drop (S i) c) with ([vi] ++ drop (S i) c) in Halt.
  rewrite app_assoc in Halt. apply alternates_app in Halt.
  rewrite holding_after_snoc_BUY in Halt by done.
  assert (drop (S i) c !! (j - S i)%nat = Some vj) as Hj'.
  { rewrite lookup_drop. by replace (S i + (j - S i))%nat with j by lia. }
  rewrite <- (take_drop_middle _ _ _ Hj') in Halt.
  destruct (alternates_between _ _ _ Hbj Halt) as (k & vk & Hk & Hs).
  apply lookup_take_Some in Hk as [Hk Hlt]. rewrite lookup_drop in Hk.
  exists (S i + k)%nat, vk. split; [lia|done].
Qed.

Lemma alternates_SELL_after_BUY (c : list (@value F)) (j : nat) vj :
  alternates false c → c !! j = Some vj → is_str vj "SELL" = true →
  ∃ (i : nat) vi, (i < j)%nat ∧ c !! i = Some vi ∧ is_str vi "BUY" = true ∧
    ∀ (k : nat) vk, (i < k < j)%nat → c !! k = Some vk →
      is_str vk "BUY" = false ∧ is_str vk "SELL" = false.
Proof.
  intros Halt Hj Hs.
  rewrite <- (take_drop_middle c j vj Hj) in Halt.
  destruct (alternates_before _ _ _ false Hs Halt)
    as [[? _]|(i & u & Hi & Hu & Hnone)]; [done|].
  apply lookup_take_Some in Hi as [Hi Hlt].
  exists i, u. split; [done|]. split; [done|]. split; [done|].
  intros k vk Hk Hvk. apply (Hnone k); [lia|].
  by rewrite lookup_take_lt by lia.
Qed.

(** *** Reading computations *)

Lemma bind_readonly {A B} (m : py A) (k : A → py B) σ :
  readonly m →
  bind m k σ = match (m σ).2 with
               | Returned a => k a σ
               | Raised e => (σ, Raised e)
               end.
Proof.
  intros Hm. unfold bind. specialize (Hm σ).
  destruct (m σ) as [σ1 [a|e]]; simpl in *; by subst.
Qed.

Lemma readonly_ret {A} (a : A) : readonly (F:=F) (ret a).
Proof. done. Qed.

Lemma readonly_raise {A} e : readonly (F:=F) (raise e : py A).
Proof. done. Qed.

Lemma readonly_bind {A B} (m : py A) (k : A → py B) :
  readonly m → (∀ a, readonly (k a)) → readonly (bind m k).
Proof.
  intros Hm Hk σ. rewrite bind_readonly by done.
  destruct (m σ).2; [apply Hk|done].
Qed.

Lemma readonly_get_item r name i : readonly (get_item (F:=F) r name i).
Proof.
  intros σ. unfold get_item, bind. rewrite get_column_run.
  destruct (cols (frame_at σ r) !! name) as [c|]; [|done].
  case_decide; [|done]. by destruct (c !! Z.to_nat i).
Qed.

Lemma readonly_float_item r name i : readonly (float_item (F:=F) r name i).
Proof.
  unfold float_item. apply readonly_bind; [apply readonly_get_item|].
  by intros [x|t].
Qed.

Lemma readonly_isnan_item r name i : readonly (isnan_item (F:=F) r name i).
Proof.
  unfold isnan_item. apply readonly_bind; [apply readonly_float_item|done].
Qed.

Lemma readonly_lt_items r a b i : readonly (lt_items (F:=F) r a b i).
Proof.
  unfold lt_items. apply readonly_bind; [apply readonly_float_item|]. intros x.
  apply readonly_bind; [apply readonly_float_item|done].
Qed.

Lemma readonly_gt_items r a b i : readonly (gt_items (F:=F) r a b i).
Proof.
  unfold gt_items. apply readonly_bind; [apply readonly_float_item|]. intros x.
  apply readonly_bind; [apply readonly_float_item|done].
Qed.

Lemma readonly_py_or (a b : py bool) : readonly a → readonly b → readonly (py_or a b).
Proof.
  intros Ha Hb. unfold py_or. apply readonly_bind; [done|]. by intros [|].
Qed.

Lemma readonly_py_and (a b : py bool) : readonly a → readonly b → readonly (py_and a b).
Proof.
  intros Ha Hb. unfold py_and. apply readonly_bind; [done|]. by intros [|].
Qed.

(** A conjunction that comes out true has evaluated its right operand to
    true. *)
Lemma py_and_true (a b : py bool) σ :
  readonly a → (py_and a b σ).2 = Returned true → (b σ).2 = Returned true.
Proof.
  intros Ha. unfold py_and. rewrite bind_readonly by done.
  destruct (a σ).2 as [[|]|e]; done.
Qed.

(** *** The alternation invariant of the signal loop *)

Lemma alternates_snoc (l : list (@value F)) v : ∀ h : bool,
  alternates h l →
  (is_str v "BUY" = true → holding_after h l = false) →
  (is_str v "SELL" = true → holding_after h l = true) →
  alternates h (l ++ [v]).
Proof.
  induction l as [|w l IH]; intros h Hl Hb Hs; simpl in *.
  - destruct (is_str v "BUY"); [by split; [apply Hb|]|].
    destruct (is_str v "SELL"); [by split; [apply Hs|]|done].
  - destruct (is_str w "BUY") eqn:Hwb.
    { destruct Hl as [-> Hl]. split; [done|]. apply IH; [done|..]; simpl in *; auto. }
    destruct (is_str w "SELL") eqn:Hws.
    { destruct Hl as [-> Hl]. split; [done|]. apply IH; [done|..]; simpl in *; auto. }
    rewrite !andb_false_l in *. by apply IH.
Qed.

Lemma signal_inv_skip σ n (j : nat) b σ1 :
  signal_inv σ n j b σ1 → (j < n)%nat → signal_inv σ n (S j) b σ1.
Proof.
  intros (D & c & -> & Hn & Hc & Hlen & Halt & Hflag & Hrest) Hj.
  exists D, c. repeat split; try done.
  - rewrite (take_S_r c j (VFloat NaN)) by (apply Hrest; lia).
    by apply alternates_snoc.
  - rewrite (take_S_r c j (VFloat NaN)) by (apply Hrest; lia).
    destruct (pairs_snoc (take j c) false (VFloat NaN)) as [_ ->]. by simpl.
  - intros i Hi. apply Hrest. lia.
Qed.

Lemma signal_inv_set σ n (j : nat) b σ1 σ2 t (b' : bool) u :
  signal_inv σ n j b σ1 → (j < n)%nat →
  (t = "BUY" ∧ b = false ∧ b' = true) ∨ (t = "SELL" ∧ b = true ∧ b' = false) →
  (set_item (length σ) signal_col (Z.of_nat j) (VStr t) ;;; ret b') σ1 = (σ2, u) →
  u = Returned b' ∧ signal_inv σ n (S j) b' σ2.
Proof.
  intros (D & c & -> & Hn & Hc & Hlen & Halt & Hflag & Hrest) Hj Ht.
  assert (j < length c)%nat as Hjc by lia.
  rewrite (bind_returned _ _ _ _ tt
             (set_item_some (length σ) signal_col j c (VStr t) (σ ++ [D])
                ltac:(by rewrite frame_at_last) Hjc)).
  rewrite frame_at_last, insert_last. intros [= <- <-]. split; [done|].
  eexists _, (<[j := VStr t]> c). split; [done|].
  assert (take (S j) (<[j := VStr t]> c) = take j c ++ [VStr t]) as Htake.
  { rewrite (take_S_r _ j (VStr t)) by (apply list_lookup_insert_eq; lia).
    by rewrite take_insert_ge by lia. }
  split; [done|]. split; [apply lookup_insert_eq|].
  split; [by rewrite length_insert|]. rewrite Htake.
  destruct (pairs_snoc (take j c) false (VStr t)) as [_ Hsnoc].
  rewrite Hsnoc, Hflag.
  split; [|split].
  - apply alternates_snoc; [done|..]; rewrite Hflag;
      destruct Ht as [(-> & -> & ->)|(-> & -> & ->)]; done.
  - destruct Ht as [(-> & -> & ->)|(-> & -> & ->)]; done.
  - intros i Hi. rewrite list_lookup_insert_ne by lia. apply Hrest. lia.
Qed.

Lemma strategy_body_inv σ n e1 e2 e3 (j : nat) b σ1 σ2 b' :
  signal_inv σ n j b σ1 → (j < n)%nat →
  strategy_body (length σ) e1 e2 e3 (Z.of_nat j) b σ1 = (σ2, Returned b') →
  signal_inv σ n (S j) b' σ2.
Proof.
  intros Hinv Hj. unfold strategy_body.
  rewrite bind_readonly
    by (repeat apply readonly_py_or; apply readonly_isnan_item).
  destruct (py_or _ _ σ1).2 as [[|]|e]; [| |done].
  { intros [= <- <-]. by apply signal_inv_skip. }
  rewrite bind_readonly
    by (repeat apply readonly_py_and;
        (apply readonly_lt_items || apply readonly_ret)).
  destruct (py_and _ _ σ1).2 as [[|]|e] eqn:Hbuy; [| |done].
  { apply py_and_true in Hbuy; [|apply readonly_lt_items].
    apply py_and_true in Hbuy; [|apply readonly_lt_items].
    simpl in Hbuy. injection Hbuy as Hb. apply bool_decide_eq_true in Hb.
    intros Hset. eapply signal_inv_set in Hset as [[= ->] ?]; eauto. }
  rewrite bind_readonly
    by (repeat apply readonly_py_and;
        (apply readonly_gt_items || apply readonly_ret)).
  clear Hbuy.
  destruct (py_and (gt_items _ _ _ _) _ σ1).2 as [[|]|e] eqn:Hsell; [| |done].
  { apply py_and_true in Hsell; [|apply readonly_gt_items].
    apply py_and_true in Hsell; [|apply readonly_gt_items].
    simpl in Hsell. injection Hsell as Hb. apply bool_decide_eq_true in Hb.
    intros Hset. eapply signal_inv_set in Hset as [[= ->] ?]; eauto. }
  intros [= <- <-]. by apply signal_inv_skip.
Qed.

Lemma strategy_loop_inv σ n e1 e2 e3 : ∀ (m j : nat) b σ1 σ2 b',
  (j + m = n)%nat → signal_inv σ n j b σ1 →
  for_each (seqZ (Z.of_nat j) (Z.of_nat m)) (strategy_body (length σ) e1 e2 e3) b σ1
  = (σ2, Returned b') →
  signal_inv σ n n b' σ2.
Proof.
  induction m as [|m IH]; intros j b σ1 σ2 b' Hm Hinv.
  - simpl. unfold ret. intros [= <- <-]. rewrite Nat.add_0_r in Hm. by subst n.
  - rewrite seqZ_cons by lia. cbn [for_each]. unfold bind at 1.
    destruct (strategy_body _ _ _ _ _ _ σ1) as [σ' [b1|e]] eqn:Hbody; [|done].
    replace (Z.succ (Z.of_nat j)) with (Z.of_nat (S j)) by lia.
    replace (Z.pred (Z.of_nat (S m))) with (Z.of_nat m) by lia.
    apply IH; [lia|]. eapply strategy_body_inv; eauto. lia.
Qed.

(** Whenever [EMA_trading_strategy] returns, the signal column of the
    frame it returns has one cell per row and alternates. *)
Lemma EMA_trading_strategy_alternates σ df e1 e2 e3 σ' r :
  EMA_trading_strategy df e1 e2 e3 σ = (σ', Returned r) →
  ∃ c, cols (frame_at σ' r) !! signal_col = Some c ∧
       length c = nrows (frame_at σ df) ∧ alternates false c.
Proof.
  intros Hrun.
  assert (r = length σ) as -> by (eapply EMA_trading_strategy_result; by rewrite Hrun).
  revert Hrun. unfold EMA_trading_strategy.
  rewrite (bind_returned _ _ σ (σ ++ [frame_at σ df]) (length σ)) by done.
  rewrite (bind_returned _ _ _ _ _ (set_column_last _ _ _ _)).
  rewrite (bind_returned _ _ _ _ _ (df_len_last _ _)).
  rewrite nrows_with_floats. unfold py_range.
  set (n := nrows (frame_at σ df)).
  replace (Z.of_nat n - 0) with (Z.of_nat n) by lia.
  unfold bind at 1.
  destruct (for_each _ _ _ _) as [σ2 [b'|e]] eqn:Hloop; [|done].
  intros [= <-].
  change 0 with (Z.of_nat 0) in Hloop.
  apply (strategy_loop_inv σ n) in Hloop; [|lia|].
  - destruct Hloop as (D & c & -> & Hn & Hc & Hlen & Halt & _).
    exists c. rewrite frame_at_last. split; [done|]. split; [done|].
    by rewrite <- Hlen, firstn_all in Halt.
  - eexists _, _. split; [done|]. split; [done|].
    split; [apply with_floats_self|].
    rewrite length_fmap, length_replicate. split; [done|].
    rewrite take_0. split; [done|]. split; [done|].
    intros i Hi. rewrite list_lookup_fmap, lookup_replicate_2 by lia. done.
Qed.

(** *** The report of [assessTradingStrategy] *)

Lemma trade_step_numpy (v : @value F) (x : F) (st : locals) :
  0 ≤ numSuccess st → 0 ≤ numFailure st →
  (0 < numSuccess st + numFailure st → inv_numpy st = true) →
  0 < numSuccess (trade_step v x st) + numFailure (trade_step v x st) →
  inv_numpy (trade_step v x st) = true.
Proof.
  intros Hs Hf Hnp. unfold trade_step.
  destruct (is_str v "BUY" && bool_decide (bought st = false)); [done|].
  destruct (is_str v "SELL" && bool_decide (bought st = true)); [|done].
  by destruct (fge _ _).
Qed.

(** Once a trade is closed, [investment] is a numpy value. *)
Lemma assess_states_numpy sigs closes n (init : F) (j : nat) :
  let st := assess_states sigs closes n (init_locals init) j in
  0 ≤ numSuccess st ∧ 0 ≤ numFailure st ∧
  (0 < numSuccess st + numFailure st → inv_numpy st = true).
Proof.
  induction j as [|j IH]; [simpl; split; [|split]; lia|].
  destruct IH as (Hs & Hf & Hnp). cbn [assess_states].
  destruct (sigs !! j) as [v|]; [|done].
  destruct (closes !! j) as [x|]; [|done].
  set (st := assess_states sigs closes n (init_locals init) j) in *.
  destruct (trade_step_nonneg v x st Hs Hf) as [Hs' Hf'].
  pose proof (trade_step_numpy v x st Hs Hf Hnp) as Hnp'.
  by destruct (bool_decide _).
Qed.

Lemma assess_report_run (st : locals) (init : F) σ :
  0 < numSuccess st + numFailure st → inv_numpy st = true →
  ∃ res, assess_report st init σ = (σ, Returned res) ∧
    res_numSuccess res = numSuccess st ∧ res_numFailure res = numFailure st ∧
    totalProfit res = Round2 (fsub (investment st) init) ∧
    res_endingInvestmentAmount res = endingInvestmentAmount st.
Proof.
  intros Hpos Hnp. unfold assess_report, div_investment, py_truediv.
  rewrite Hnp. simpl. rewrite decide_False by lia.
  eexists. split; [reflexivity|done].
Qed.

Lemma assess_report_no_trade (st : locals) (init : F) σ :
  numSuccess st + numFailure st = 0 →
  assess_report st init σ = (σ, Raised ZeroDivisionError).
Proof.
  intros Hzero. unfold assess_report, div_investment, py_truediv.
  destruct (negb (inv_numpy st) && iszero init); [done|].
  unfold bind, ret. by rewrite decide_True.
Qed.


(** ** The claims *)



(** C3. For a period [p] with [1 <= p <= length s] and every index [i] with
    [p-1 < i < length s], the column [EMA] returns satisfies
    [output[i] = s[i] * k + output[i-1] * (1 - k)] with [k = 2 / (p + 1)]. *)
Theorem EMA_recurrence σ df closeCol (numPeriods : Z) s (i : nat) :
  cols (frame_at σ df) !! closeCol = Some (VFloat <$> s) →
  nrows (frame_at σ df) = length s →
  1 ≤ numPeriods ≤ Z.of_nat (length s) →
  closeCol ≠ ema_name numPeriods →
  numPeriods - 1 < Z.of_nat i < Z.of_nat (length s) →
  let k := truediv_int 2 (numPeriods + 1) in
  ∃ σ' dfCopy out x prev,
    EMA df closeCol numPeriods σ = (σ', Returned dfCopy) ∧
    cols (frame_at σ' dfCopy) !! ema_name numPeriods = Some (VFloat <$> out) ∧
    s !! i = Some x ∧ out !! (i - 1)%nat = Some prev ∧
    out !! i = Some (fadd (fmul x k) (fmul prev (fsub (of_int 1) k))).
Proof.
  intros Hclose Hrows Hp Hne Hi k.
  set (p := Z.to_nat numPeriods).
  assert (length (ema_values s p) = length s) as Hlen
    by (apply length_ema_values; lia).
  destruct (lookup_lt_is_Some_2 s i) as [x Hx]; [lia|].
  destruct (lookup_lt_is_Some_2 (ema_values s p) (i - 1)%nat) as [prev Hprev]; [lia|].
  eexists _, _, (ema_values s p), x, prev.
  split; [by apply EMA_run|]. rewrite frame_at_last.
  split; [apply with_floats_self|].
  split; [done|]. split; [done|].
  rewrite (ema_values_rec s p i x prev) by (done || lia).
  unfold ema_next, k. by replace (Z.of_nat p) with numPeriods by lia.
Qed.

(** C4. On three EMA columns, [EMA_trading_strategy] returns the frame with
    the signal column of the scan of the specification: positions in
    increasing order, a flag that starts false; no signal and the flag kept
    when one of the three inputs is undefined; else 'BUY' and the flag set
    when [mid < short], [long < mid] and the flag is false; else 'SELL' and
    the flag cleared when [mid > short], [long > mid] and the flag is true;
    else no signal. *)
Theorem EMA_trading_strategy_follows_spec σ df e1 e2 e3 s1 s2 s3 :
  cols (frame_at σ df) !! e1 = Some (VFloat <$> s1) →
  cols (frame_at σ df) !! e2 = Some (VFloat <$> s2) →
  cols (frame_at σ df) !! e3 = Some (VFloat <$> s3) →
  nrows (frame_at σ df) = length s1 →
  length s2 = length s1 → length s3 = length s1 →
  e1 ≠ signal_col → e2 ≠ signal_col → e3 ≠ signal_col →
  ∃ σ' dfCopy,
    EMA_trading_strategy df e1 e2 e3 σ = (σ', Returned dfCopy) ∧
    cols (frame_at σ' dfCopy) !! signal_col
    = Some (signal_cell <$> spec_generateSignals false s1 s2 s3) ∧
    length (spec_generateSignals false s1 s2 s3) = length s1.
Proof.
  intros H1 H2 H3 Hrows Hl2 Hl3 Hn1 Hn2 Hn3.
  eexists _, _. split; [by apply (EMA_trading_strategy_run _ _ _ _ _ s1 s2 s3)|].
  rewrite frame_at_last. split; [apply with_column_self|].
  by apply length_spec_generateSignals.
Qed.

(** C5. Whenever [EMA_trading_strategy] returns, the signal column it
    produced, scanned from the left with a flag that starts false, has every
    'BUY' at a false flag (which it sets) and every 'SELL' at a true flag
    (which it clears); in particular between two 'BUY's there is a 'SELL',
    and every 'SELL' has a 'BUY' before it with no signal in between. *)
Theorem signals_alternate σ df e1 e2 e3 σ' dfCopy :
  EMA_trading_strategy df e1 e2 e3 σ = (σ', Returned dfCopy) →
  ∃ c, cols (frame_at σ' dfCopy) !! signal_col = Some c ∧
    length c = nrows (frame_at σ df) ∧
    alternates false c ∧
    (∀ (i j : nat) vi vj, (i < j)%nat → c !! i = Some vi → c !! j = Some vj →
       is_str vi "BUY" = true → is_str vj "BUY" = true →
       ∃ (k : nat) vk, (i < k < j)%nat ∧ c !! k = Some vk ∧ is_str vk "SELL" = true) ∧
    (∀ (j : nat) vj, c !! j = Some vj → is_str vj "SELL" = true →
       ∃ (i : nat) vi, (i < j)%nat ∧ c !! i = Some vi ∧ is_str vi "BUY" = true ∧
         ∀ (k : nat) vk, (i < k < j)%nat → c !! k = Some vk →
           is_str vk "BUY" = false ∧ is_str vk "SELL" = false).
Proof.
  intros Hrun.
  destruct (EMA_trading_strategy_alternates _ _ _ _ _ _ _ Hrun) as (c & Hc & Hlen & Halt).
  exists c. split; [done|]. split; [done|]. split; [done|]. split.
  - intros i j vi vj. by apply alternates_no_double_BUY.
  - intros j vj. by apply alternates_SELL_after_BUY.
Qed.

(** C6. What the code does with the counters.  On a close column and a
    signal column of the frame's length, the loop of
    [assessTradingStrategy] ends with [numSuccess] and [numFailure] whose
    sum is the number of completed (BUY, SELL) pairs of the signal
    sequence, and an unmatched trailing 'BUY' is counted in neither: the
    counters and the investment, hence the profit, are those the loop had
    when it reached that 'BUY'.  The call returns the two counters when a
    pair is completed; when none is, the division of line 114 raises
    [ZeroDivisionError] and the counters, both 0, never reach the caller. *)
Theorem backtest_counts_completed_pairs σ df closeCol sigCol sigs closes
    (initialAmount : F) :
  cols (frame_at σ df) !! sigCol = Some sigs →
  cols (frame_at σ df) !! closeCol = Some (VFloat <$> closes) →
  length sigs = nrows (frame_at σ df) →
  length closes = nrows (frame_at σ df) →
  ∃ st,
    assess_loop df closeCol sigCol initialAmount σ = (σ, Returned st) ∧
    numSuccess st + numFailure st = Z.of_nat (completed_pairs false sigs) ∧
    ((0 < completed_pairs false sigs)%nat →
       ∃ res, assessTradingStrategy df closeCol sigCol initialAmount σ
              = (σ, Returned res) ∧
         res_numSuccess res = numSuccess st ∧
         res_numFailure res = numFailure st ∧
         totalProfit res = Round2 (fsub (investment st) initialAmount)) ∧
    (completed_pairs false sigs = 0%nat →
       assessTradingStrategy df closeCol sigCol initialAmount σ
       = (σ, Raised ZeroDivisionError)) ∧
    (∀ pre post,
       sigs = pre ++ VStr "BUY" :: post →
       holding_after false pre = false →
       (∀ v, v ∈ post → is_str v "SELL" = false) →
       ∃ st0,
         assess_prefix df closeCol sigCol initialAmount (Z.of_nat (length pre)) σ
         = (σ, Returned st0) ∧
         investment st = investment st0 ∧
         numSuccess st = numSuccess st0 ∧ numFailure st = numFailure st0 ∧
         completed_pairs false sigs = completed_pairs false pre).
Proof.
  intros Hs Hc Hl1 Hl2.
  set (n := nrows (frame_at σ df)) in *.
  set (st := assess_states sigs closes n (init_locals initialAmount) n).
  pose proof (assess_loop_run σ df closeCol sigCol sigs closes initialAmount
                Hs Hc Hl1 Hl2) as Hloop. fold n in Hloop. fold st in Hloop.
  destruct (assess_states_count sigs closes n initialAmount n)
    as (Hcount & _ & Hsn & Hfn); [lia|lia|].
  fold st in Hcount, Hsn, Hfn. rewrite <- Hl1, firstn_all in Hcount.
  exists st. split; [done|]. split; [done|]. split; [|split].
  - intros Hpos.
    destruct (assess_states_numpy sigs closes n initialAmount n) as (_ & _ & Hnp).
    fold st in Hnp.
    destruct (assess_report_run st initialAmount σ) as (res & Hres & H1 & H2 & H3 & _);
      [lia|apply Hnp; lia|].
    exists res. split; [|done]. unfold assessTradingStrategy.
    by rewrite (bind_returned _ _ _ _ _ Hloop).
  - intros Hzero. unfold assessTradingStrategy.
    rewrite (bind_returned _ _ _ _ _ Hloop).
    apply assess_report_no_trade. lia.
  - intros pre post Hsigs Hflat Hpost.
    assert (length sigs = (length pre + 1 + length post)%nat) as Hlen.
    { rewrite Hsigs, length_app. simpl. lia. }
    exists (assess_states sigs closes n (init_locals initialAmount) (length pre)).
    split; [apply (assess_prefix_run _ _ _ _ sigs closes); (done || lia)|].
    destruct (assess_states_trailing sigs closes n initialAmount pre post
                Hsigs ltac:(lia) Hflat Hpost (length post) ltac:(lia))
      as (Hi & Hns & Hnf & _).
    replace (length pre + 1 + length post)%nat with n in Hi, Hns, Hnf by lia.
    fold st in Hi, Hns, Hnf.
    split; [done|]. split; [done|]. split; [done|].
    destruct (assess_states_count sigs closes n initialAmount (length pre))
      as (Hcount0 & _); [lia|lia|].
    rewrite Hsigs, take_app_length in Hcount0. rewrite <- Hsigs in Hcount0.
    rewrite <- Hns, <- Hnf in Hcount0. lia.
Qed.

(** C7. What the code does on every input on which no trade is completed
    ([numSuccess + numFailure = 0] after the loop): the division of line
    114, [numSuccess / (numSuccess + numFailure)], or before it the one of
    line 113, raises [ZeroDivisionError], and the call hands none of its six
    results to the caller.  The zero-trade case has no outcome of its own:
    the failure is the division fault. *)
Theorem no_trade_raises σ σ' df closeCol sigCol (initialAmount : F) st :
  assess_loop df closeCol sigCol initialAmount σ = (σ', Returned st) →
  numSuccess st + numFailure st = 0 →
  assessTradingStrategy df closeCol sigCol initialAmount σ
  = (σ', Raised ZeroDivisionError).
Proof.
  intros Hloop Hzero. unfold assessTradingStrategy.
  rewrite (bind_returned _ _ _ _ _ Hloop).
  by apply assess_report_no_trade.
Qed.

(** C9. Neither [EMA] nor [EMA_trading_strategy] mutates its input: after
    the call, returned or raised, every frame of the store is as it was, the
    argument and the frames other calls returned included; the only change
    is one new frame, the copy, and a returned reference is that new frame. *)
Theorem inputs_not_mutated σ df closeCol (numPeriods : Z) e1 e2 e3 :
  (∀ r d, σ !! r = Some d → (EMA df closeCol numPeriods σ).1 !! r = Some d) ∧
  (∃ d', (EMA df closeCol numPeriods σ).1 = σ ++ [d']) ∧
  (∀ r, (EMA df closeCol numPeriods σ).2 = Returned r → σ !! r = None) ∧
  (∀ r d, σ !! r = Some d →
          (EMA_trading_strategy df e1 e2 e3 σ).1 !! r = Some d) ∧
  (∃ d', (EMA_trading_strategy df e1 e2 e3 σ).1 = σ ++ [d']) ∧
  (∀ r, (EMA_trading_strategy df e1 e2 e3 σ).2 = Returned r → σ !! r = None).
Proof.
  destruct (EMA_store σ df closeCol numPeriods) as [d1 H1].
  destruct (EMA_trading_strategy_store σ df e1 e2 e3) as [d2 H2].
  split; [intros r d Hr; rewrite H1; by apply lookup_extended|].
  split; [by exists d1|].
  split.
  { intros r Hr. apply EMA_result in Hr as ->. by apply lookup_ge_None_2. }
  split; [intros r d Hr; rewrite H2; by apply lookup_extended|].
  split; [by exists d2|].
  intros r Hr. apply EMA_trading_strategy_result in Hr as ->.
  by apply lookup_ge_None_2.
Qed.

(** C10. With a period strictly greater than the length of the series,
    [EMA] returns normally: the loop has no position to visit, the new
    column holds an undefined entry in every row and the other columns are
    those of the argument. *)
Theorem EMA_period_beyond_series σ df closeCol (numPeriods : Z) :
  Z.of_nat (nrows (frame_at σ df)) < numPeriods →
  py_range (numPeriods - 1) (Z.of_nat (nrows (frame_at σ df))) = [] ∧
  ∃ σ' dfCopy,
    EMA df closeCol numPeriods σ = (σ', Returned dfCopy) ∧
    nrows (frame_at σ' dfCopy) = nrows (frame_at σ df) ∧
    cols (frame_at σ' dfCopy) !! ema_name numPeriods
    = Some (replicate (nrows (frame_at σ df)) (VFloat NaN)) ∧
    ∀ c, c ≠ ema_name numPeriods →
         cols (frame_at σ' dfCopy) !! c = cols (frame_at σ df) !! c.
Proof.
  intros Hp. split; [unfold py_range; apply seqZ_nil; lia|].
  eexists _, _. split; [by apply EMA_run_long|].
  rewrite frame_at_last. split; [done|].
  split; [by rewrite with_floats_self, fmap_replicate|].
  intros c Hc. by apply with_floats_other.
Qed.

(** ** Further properties of the three functions *)

(** *** Column names *)

Lemma string_app_cons a (s t : string) : String a s +:+ t = String a (s +:+ t).
Proof. reflexivity. Qed.

Lemma string_length_app (s t : string) :
  String.length (s +:+ t) = (String.length s + String.length t)%nat.
Proof.
  induction s as [|a s IH]; [done|].
  rewrite string_app_cons. simpl. by rewrite IH.
Qed.

Lemma string_app_inv_r (t : string) : ∀ s1 s2 : string,
  s1 +:+ t = s2 +:+ t → s1 = s2.
Proof.
  induction s1 as [|a s1 IH]; intros [|b s2] Heq; [done| | |].
  - apply (f_equal String.length) in Heq.
    rewrite !string_length_app in Heq. simpl in Heq. lia.
  - apply (f_equal String.length) in Heq.
    rewrite !string_length_app in Heq. simpl in Heq. lia.
  - rewrite !string_app_cons in Heq. injection Heq as -> Heq.
    f_equal. by apply IH.
Qed.

(** Different periods name different columns. *)
Lemma ema_name_inj (p q : Z) : ema_name p = ema_name q → p = q.
Proof.
  unfold ema_name. intros Heq. apply string_app_inv_r in Heq.
  by apply (inj pretty).
Qed.

(** No period names the signal column. *)
Lemma ema_name_not_signal (p : Z) : ema_name p ≠ signal_col.
Proof.
  unfold ema_name, signal_col. generalize (pretty p). intros s.
  repeat (destruct s as [|? s]; [discriminate|];
          rewrite string_app_cons; intros Heq; injection Heq as _ Heq;
          revert Heq).
  destruct s; discriminate.
Qed.

(** *** More reading computations *)

Lemma readonly_if {A} (b : bool) (m1 m2 : py A) :
  readonly m1 → readonly m2 → readonly (if b then m1 else m2).
Proof. by destruct b. Qed.

Lemma readonly_for_each {A} (l : list Z) (body : Z → A → py A) a :
  (∀ i a, readonly (body i a)) → readonly (for_each l body a).
Proof.
  intros Hbody. revert a. induction l as [|i l IH]; intros a; simpl.
  - apply readonly_ret.
  - apply readonly_bind; auto.
Qed.

Lemma readonly_get_frame r : readonly (get_frame (F:=F) r).
Proof. done. Qed.

Lemma readonly_df_len r : readonly (df_len (F:=F) r).
Proof. done. Qed.

Lemma readonly_get_column r name : readonly (get_column (F:=F) r name).
Proof. intros σ. by rewrite get_column_run. Qed.

Lemma readonly_get_slice r name a b : readonly (get_slice (F:=F) r name a b).
Proof.
  unfold get_slice. apply readonly_bind; [apply readonly_get_column|done].
Qed.

Lemma readonly_as_float v : readonly (as_float (F:=F) v).
Proof. by destruct v. Qed.

Lemma readonly_as_floats l : readonly (as_floats (F:=F) l).
Proof.
  induction l as [|v l IH]; simpl; [done|].
  apply readonly_bind; [apply readonly_as_float|]. intros x.
  apply readonly_bind; [apply IH|done].
Qed.

Lemma readonly_py_truediv a b : readonly (py_truediv (F:=F) a b).
Proof. unfold py_truediv. by case_decide. Qed.

Lemma readonly_signal_is r name i t : readonly (signal_is (F:=F) r name i t).
Proof.
  unfold signal_is. apply readonly_bind; [apply readonly_get_item|done].
Qed.

Lemma readonly_assess_body df closeCol sigCol i st :
  readonly (assess_body (F:=F) df closeCol sigCol i st).
Proof.
  unfold assess_body, assess_trade, assess_snapshot.
  apply readonly_bind.
  - apply readonly_bind; [apply readonly_py_and; [apply readonly_signal_is|done]|].
    intros c. apply readonly_if.
    + apply readonly_bind; [apply readonly_float_item|done].
    + apply readonly_bind; [apply readonly_py_and; [apply readonly_signal_is|done]|].
      intros c'. apply readonly_if; [|done].
      apply readonly_bind; [apply readonly_float_item|]. intros sp.
      cbv zeta. by destruct (fge _ _).
  - intros st'. apply readonly_bind; [apply readonly_df_len|].
    intros n. by case_decide.
Qed.

Lemma readonly_assess_loop df closeCol sigCol (init : F) :
  readonly (assess_loop df closeCol sigCol init).
Proof.
  unfold assess_loop, assess_prefix.
  apply readonly_bind; [apply readonly_df_len|]. intros n.
  apply readonly_for_each. intros i st. apply readonly_assess_body.
Qed.

Lemma readonly_assess_report (st : locals) (init : F) :
  readonly (assess_report st init).
Proof.
  unfold assess_report, div_investment.
  apply readonly_bind; [by destruct (negb _ && _)|]. intros q.
  apply readonly_bind; [apply readonly_py_truediv|done].
Qed.

(** *** What the writes can change *)

Lemma keeps_of_readonly r name {A} (m : py A) :
  readonly m → keeps_columns r name m.
Proof.
  intros Hm σ d _. exists d. rewrite Hm.
  split; [done|]. split; [done|]. split; [done|]. eauto.
Qed.

Lemma keeps_bind r name {A B} (m : py A) (k : A → py B) :
  keeps_columns r name m → (∀ a, keeps_columns r name (k a)) →
  keeps_columns r name (bind m k).
Proof.
  intros Hm Hk σ d Hr. destruct (Hm σ d Hr) as (d1 & H1 & Hn1 & Hc1 & Hl1).
  unfold bind. destruct (m (σ ++ [d])) as [σ1 [a|e]]; simpl in H1; subst σ1.
  - destruct (Hk a σ d1 Hr) as (d2 & H2 & Hn2 & Hc2 & Hl2).
    exists d2. split; [done|]. split; [congruence|]. split.
    + intros c Hc. by rewrite Hc2, Hc1.
    + intros c0 H0. destruct (Hl1 c0 H0) as (c1 & Hc1' & Hlen1).
      destruct (Hl2 c1 Hc1') as (c2 & Hc2' & Hlen2).
      exists c2. split; [done|congruence].
  - by exists d1.
Qed.

Lemma keeps_for_each r name {A} (l : list Z) (body : Z → A → py A) a :
  (∀ i a, keeps_columns r name (body i a)) →
  keeps_columns r name (for_each l body a).
Proof.
  intros Hbody. revert a. induction l as [|i l IH]; intros a; simpl.
  - by apply keeps_of_readonly.
  - apply keeps_bind; auto.
Qed.

Lemma keeps_if r name {A} (b : bool) (m1 m2 : py A) :
  keeps_columns r name m1 → keeps_columns r name m2 →
  keeps_columns r name (if b then m1 else m2).
Proof. by destruct b. Qed.

Lemma keeps_set_item r name i v : keeps_columns r name (set_item (F:=F) r name i v).
Proof.
  intros σ d <-. unfold set_item. rewrite bind_readonly by apply readonly_get_column.
  rewrite get_column_run. simpl. rewrite frame_at_last.
  destruct (cols d !! name) as [c|] eqn:Hcol;
    [|exists d; split; [done|]; split; [done|]; split; [done|]; by intros c0 ?].
  case_decide;
    [|exists d; split; [done|]; split; [done|]; split; [done|];
      intros c0 [= <-]; by exists c].
  unfold bind, get_frame, put_frame. rewrite frame_at_last, insert_last.
  eexists. split; [done|]. split; [done|]. split.
  - intros c' Hc'. simpl. by rewrite lookup_insert_ne.
  - intros c0 [= <-]. eexists. simpl. rewrite lookup_insert_eq.
    split; [done|]. by rewrite length_insert.
Qed.

Lemma keeps_EMA_body r closeCol numPeriods k i u :
  keeps_columns r (ema_name numPeriods)
    (EMA_body (F:=F) r closeCol numPeriods k i u).
Proof.
  unfold EMA_body. case_decide.
  - apply keeps_bind; [apply keeps_of_readonly, readonly_get_slice|]. intros w.
    apply keeps_bind; [apply keeps_of_readonly, readonly_as_floats|]. intros xs.
    apply keeps_set_item.
  - apply keeps_bind; [apply keeps_of_readonly, readonly_get_item|]. intros c.
    apply keeps_bind; [apply keeps_of_readonly, readonly_as_float|]. intros x.
    apply keeps_bind; [apply keeps_of_readonly, readonly_get_item|]. intros p.
    apply keeps_bind; [apply keeps_of_readonly, readonly_as_float|]. intros y.
    apply keeps_set_item.
Qed.

Lemma keeps_strategy_body r e1 e2 e3 i b :
  keeps_columns r signal_col (strategy_body (F:=F) r e1 e2 e3 i b).
Proof.
  unfold strategy_body.
  apply keeps_bind.
  { apply keeps_of_readonly. repeat apply readonly_py_or; apply readonly_isnan_item. }
  intros c. apply keeps_if; [by apply keeps_of_readonly|].
  apply keeps_bind.
  { apply keeps_of_readonly.
    repeat apply readonly_py_and; (apply readonly_lt_items || apply readonly_ret). }
  intros c2. apply keeps_if.
  { apply keeps_bind; [apply keeps_set_item|]. intros _. by apply keeps_of_readonly. }
  apply keeps_bind.
  { apply keeps_of_readonly.
    repeat apply readonly_py_and; (apply readonly_gt_items || apply readonly_ret). }
  intros c3. apply keeps_if; [|by apply keeps_of_readonly].
  apply keeps_bind; [apply keeps_set_item|]. intros _. by apply keeps_of_readonly.
Qed.

Lemma EMA_keeps σ df closeCol numPeriods :
  ∃ d', (EMA df closeCol numPeriods σ).1 = σ ++ [d'] ∧
        nrows d' = nrows (frame_at σ df) ∧
        (∀ c, c ≠ ema_name numPeriods →
              cols d' !! c = cols (frame_at σ df) !! c) ∧
        ∃ col, cols d' !! ema_name numPeriods = Some col ∧
               length col = nrows (frame_at σ df).
Proof.
  unfold EMA.
  rewrite (bind_returned _ _ σ (σ ++ [frame_at σ df]) (length σ)) by done.
  rewrite (bind_returned _ _ _ _ _ (set_column_last _ _ _ _)).
  set (m := bind _ _).
  assert (keeps_columns (length σ) (ema_name numPeriods) m) as Hm.
  { unfold m. apply keeps_bind; [apply keeps_of_readonly, readonly_py_truediv|].
    intros k. apply keeps_bind; [apply keeps_of_readonly, readonly_df_len|].
    intros n. apply keeps_bind; [|intros; by apply keeps_of_readonly].
    apply keeps_for_each. intros i u. apply keeps_EMA_body. }
  destruct (Hm σ (with_floats (frame_at σ df) (ema_name numPeriods)
                    (replicate (nrows (frame_at σ df)) NaN)) eq_refl)
    as (d' & Hst & Hn & Hc & Hl).
  exists d'. split; [done|]. split; [done|]. split.
  - intros c Hne. rewrite Hc by done. by apply with_floats_other.
  - destruct (Hl _ (with_floats_self _ _ _)) as (c1 & Hc1 & Hlen).
    exists c1. split; [done|]. by rewrite Hlen, length_fmap, length_replicate.
Qed.

Lemma EMA_trading_strategy_keeps σ df e1 e2 e3 :
  ∃ d', (EMA_trading_strategy df e1 e2 e3 σ).1 = σ ++ [d'] ∧
        nrows d' = nrows (frame_at σ df) ∧
        ∀ c, c ≠ signal_col → cols d' !! c = cols (frame_at σ df) !! c.
Proof.
  unfold EMA_trading_strategy.
  rewrite (bind_returned _ _ σ (σ ++ [frame_at σ df]) (length σ)) by done.
  rewrite (bind_returned _ _ _ _ _ (set_column_last _ _ _ _)).
  set (m := bind _ _).
  assert (keeps_columns (length σ) signal_col m) as Hm.
  { unfold m. apply keeps_bind; [apply keeps_of_readonly, readonly_df_len|].
    intros n. apply keeps_bind; [|intros; by apply keeps_of_readonly].
    apply keeps_for_each. intros i u. apply keeps_strategy_body. }
  destruct (Hm σ (with_floats (frame_at σ df) signal_col
                    (replicate (nrows (frame_at σ df)) NaN)) eq_refl)
    as (d' & Hst & Hn & Hc & _).
  exists d'. split; [done|]. split; [done|].
  intros c Hne. rewrite Hc by done. by apply with_floats_other.
Qed.

(** *** Missing columns *)

Lemma get_column_none r name σ :
  cols (frame_at σ r) !! name = None →
  get_column (F:=F) r name σ = (σ, Raised KeyError).
Proof. intros Hc. by rewrite get_column_run, Hc. Qed.

Lemma get_item_none r name i σ :
  cols (frame_at σ r) !! name = None →
  get_item (F:=F) r name i σ = (σ, Raised KeyError).
Proof.
  intros Hc. unfold get_item.
  by rewrite (bind_raised _ _ _ _ _ (get_column_none _ _ _ Hc)).
Qed.

Lemma float_item_none r name i σ :
  cols (frame_at σ r) !! name = None →
  float_item (F:=F) r name i σ = (σ, Raised KeyError).
Proof.
  intros Hc. unfold float_item.
  by rewrite (bind_raised _ _ _ _ _ (get_item_none _ _ _ _ Hc)).
Qed.

Lemma for_each_raised {A} (i : Z) (l : list Z) (body : Z → A → py A) a σ σ' e :
  body i a σ = (σ', Raised e) → for_each (i :: l) body a σ = (σ', Raised e).
Proof. intros Hb. simpl. by rewrite (bind_raised _ _ _ _ _ Hb). Qed.

(** *** Counting signals *)

Lemma alternates_balance (c : list (@value F)) : ∀ h : bool,
  alternates h c →
  (count_str "BUY" c + (if h then 1 else 0)
   = count_str "SELL" c + (if holding_after h c then 1 else 0))%nat.
Proof.
  induction c as [|v c IH]; intros h; simpl; [lia|].
  destruct (is_str v "BUY") eqn:Hb.
  { rewrite (is_str_BUY_SELL _ Hb). intros [-> Halt]. simpl.
    specialize (IH true Halt). simpl in IH. lia. }
  destruct (is_str v "SELL") eqn:Hs.
  { intros [-> Halt]. simpl. specialize (IH false Halt). simpl in IH. lia. }
  rewrite !andb_false_l. intros Halt. specialize (IH h Halt). lia.
Qed.

Lemma alternates_pairs (c : list (@value F)) : ∀ h : bool,
  alternates h c → completed_pairs h c = count_str "SELL" c.
Proof.
  induction c as [|v c IH]; intros h; simpl; [done|].
  destruct (is_str v "BUY") eqn:Hb.
  { rewrite (is_str_BUY_SELL _ Hb). intros [-> Halt]. simpl. by apply IH. }
  destruct (is_str v "SELL") eqn:Hs.
  { intros [-> Halt]. simpl. f_equal. by apply IH. }
  rewrite !andb_false_l. intros Halt. simpl. by apply IH.
Qed.

(** *** More on the locals of the backtest *)

Lemma trade_step_noop (v : @value F) (x : F) (st : locals) :
  is_str v "BUY" && negb (bought st) = false →
  is_str v "SELL" && bought st = false →
  trade_step v x st = st.
Proof.
  intros Hb Hs. unfold trade_step.
  destruct (bought st), (is_str v "BUY"), (is_str v "SELL"); simplify_eq/=; done.
Qed.

Lemma assess_states_last sigs closes (n : nat) (init : F) :
  (1 ≤ n)%nat → length sigs = n → length closes = n →
  endingInvestmentAmount (assess_states sigs closes n (init_locals init) n)
  = Round2 (investment (assess_states sigs closes n (init_locals init) n)).
Proof.
  intros Hn Hl1 Hl2. destruct n as [|n]; [lia|].
  destruct (lookup_lt_is_Some_2 sigs n) as [v Hv]; [lia|].
  destruct (lookup_lt_is_Some_2 closes n) as [x Hx]; [lia|].
  rewrite (assess_states_S _ _ _ _ _ v x Hv Hx).
  rewrite bool_decide_true by lia. done.
Qed.

Lemma assess_states_untouched sigs closes n (init : F) (j : nat) :
  let st := assess_states sigs closes n (init_locals init) j in
  numSuccess st + numFailure st = 0 →
  investment st = init ∧ inv_numpy st = false.
Proof.
  induction j as [|j IH]; [done|]. cbn [assess_states].
  destruct (sigs !! j) as [v|]; [|done].
  destruct (closes !! j) as [x|]; [|done].
  set (st := assess_states sigs closes n (init_locals init) j) in *.
  destruct (assess_states_numpy sigs closes n init j) as (Hs & Hf & _).
  fold st in Hs, Hf.
  destruct (snapshot_step_fields (bool_decide (Z.of_nat j = Z.of_nat n - 1))
              (trade_step v x st)) as (-> & _ & _ & -> & ->).
  assert (inv_numpy (snapshot_step (bool_decide (Z.of_nat j = Z.of_nat n - 1))
                       (trade_step v x st)) = inv_numpy (trade_step v x st)) as ->
    by (by destruct (bool_decide _)).
  unfold trade_step.
  destruct (is_str v "BUY" && bool_decide (bought st = false)); [exact IH|].
  destruct (is_str v "SELL" && bool_decide (bought st = true)); [|exact IH].
  destruct (fge _ _); simpl; lia.
Qed.

(** ** Further properties, stated *)

(** X1. [assessTradingStrategy] only reads: for every input, whether the
    call returns or raises, the store after it is the store before it. *)
Theorem assess_leaves_store σ df closeCol sigCol (initialAmount : F) :
  (assessTradingStrategy df closeCol sigCol initialAmount σ).1 = σ.
Proof.
  apply readonly_bind; [apply readonly_assess_loop|].
  intros st. apply readonly_assess_report.
Qed.

(** X2. Whenever [EMA] returns, the frame it returns has the rows of its
    argument, every column of the argument other than the one named
    ['<numPeriods>_period_EMA'] with its cells unchanged, and that column
    with one cell per row. *)
Theorem EMA_adds_one_column σ df closeCol numPeriods σ' dfCopy :
  EMA df closeCol numPeriods σ = (σ', Returned dfCopy) →
  nrows (frame_at σ' dfCopy) = nrows (frame_at σ df) ∧
  (∀ c, c ≠ ema_name numPeriods →
        cols (frame_at σ' dfCopy) !! c = cols (frame_at σ df) !! c) ∧
  ∃ col, cols (frame_at σ' dfCopy) !! ema_name numPeriods = Some col ∧
         length col = nrows (frame_at σ df).
Proof.
  intros Hrun.
  assert (dfCopy = length σ) as -> by (eapply EMA_result; by rewrite Hrun).
  destruct (EMA_keeps σ df closeCol numPeriods) as (d' & Hst & Hn & Hc & Hcol).
  rewrite Hrun in Hst. simpl in Hst. subst σ'. by rewrite frame_at_last.
Qed.

(** X3. Whenever [EMA_trading_strategy] returns, the frame it returns has
    the rows of its argument and every column of the argument other than
    'Buy_Sell_Signal' with its cells unchanged. *)
Theorem EMA_trading_strategy_adds_one_column σ df e1 e2 e3 σ' dfCopy :
  EMA_trading_strategy df e1 e2 e3 σ = (σ', Returned dfCopy) →
  nrows (frame_at σ' dfCopy) = nrows (frame_at σ df) ∧
  ∀ c, c ≠ signal_col →
       cols (frame_at σ' dfCopy) !! c = cols (frame_at σ df) !! c.
Proof.
  intros Hrun.
  assert (dfCopy = length σ) as ->
    by (eapply EMA_trading_strategy_result; by rewrite Hrun).
  destruct (EMA_trading_strategy_keeps σ df e1 e2 e3) as (d' & Hst & Hn & Hc).
  rewrite Hrun in Hst. simpl in Hst. subst σ'. by rewrite frame_at_last.
Qed.

(** X4. With a period within the frame's rows and a close column name the
    frame does not have, and which is not the name of the new column
    ['<numPeriods>_period_EMA'] either, [EMA] raises [KeyError] at the
    first position of its loop, after it has created the copy with the new
    column.  (Under the new column's own name the copy has the column, and
    the lookup finds it.) *)
Theorem EMA_missing_close_column σ df closeCol (numPeriods : Z) :
  1 ≤ numPeriods ≤ Z.of_nat (nrows (frame_at σ df)) →
  cols (frame_at σ df) !! closeCol = None →
  closeCol ≠ ema_name numPeriods →
  EMA df closeCol numPeriods σ
  = (σ ++ [with_floats (frame_at σ df) (ema_name numPeriods)
             (replicate (nrows (frame_at σ df)) NaN)], Raised KeyError).
Proof.
  intros Hp Hnone Hne. unfold EMA.
  rewrite (bind_returned _ _ σ (σ ++ [frame_at σ df]) (length σ)) by done.
  rewrite (bind_returned _ _ _ _ _ (set_column_last _ _ _ _)).
  unfold py_truediv. rewrite decide_False by lia.
  rewrite (bind_returned _ _ _ _ (truediv_int 2 (numPeriods + 1)) eq_refl).
  rewrite (bind_returned _ _ _ _ _ (df_len_last _ _)).
  rewrite nrows_with_floats. unfold py_range. rewrite seqZ_cons by lia.
  erewrite bind_raised; [done|]. apply for_each_raised.
  unfold EMA_body. rewrite decide_True by done.
  erewrite bind_raised; [done|]. unfold get_slice.
  erewrite bind_raised; [done|]. apply get_column_none.
  rewrite frame_at_last. by rewrite with_floats_other.
Qed.

(** X5. On a frame with at least one row, [EMA_trading_strategy] raises
    [KeyError] when the frame has no column of the first EMA name and that
    name is not 'Buy_Sell_Signal', the column the call itself adds to the
    copy: the first test of the first position reads it. *)
Theorem strategy_missing_column σ df e1 e2 e3 :
  (1 ≤ nrows (frame_at σ df))%nat →
  cols (frame_at σ df) !! e1 = None → e1 ≠ signal_col →
  EMA_trading_strategy df e1 e2 e3 σ
  = (σ ++ [with_floats (frame_at σ df) signal_col
             (replicate (nrows (frame_at σ df)) NaN)], Raised KeyError).
Proof.
  intros Hn Hnone Hne. unfold EMA_trading_strategy.
  rewrite (bind_returned _ _ σ (σ ++ [frame_at σ df]) (length σ)) by done.
  rewrite (bind_returned _ _ _ _ _ (set_column_last _ _ _ _)).
  rewrite (bind_returned _ _ _ _ _ (df_len_last _ _)).
  rewrite nrows_with_floats. unfold py_range. rewrite seqZ_cons by lia.
  erewrite bind_raised; [done|]. apply for_each_raised.
  unfold strategy_body. erewrite bind_raised; [done|].
  unfold py_or. erewrite bind_raised; [done|].
  unfold isnan_item. erewrite bind_raised; [done|].
  apply float_item_none. rewrite frame_at_last. by rewrite with_floats_other.
Qed.

(** X6. On a frame with at least one row, [assessTradingStrategy] raises
    [KeyError] when the frame has no column of the signal name. *)
Theorem assess_missing_signal_column σ df closeCol sigCol (initialAmount : F) :
  (1 ≤ nrows (frame_at σ df))%nat →
  cols (frame_at σ df) !! sigCol = None →
  assessTradingStrategy df closeCol sigCol initialAmount σ = (σ, Raised KeyError).
Proof.
  intros Hn Hnone. unfold assessTradingStrategy.
  erewrite bind_raised; [done|]. unfold assess_loop.
  rewrite (bind_returned _ _ _ _ _ (df_len_run _ _)).
  unfold assess_prefix, py_range. rewrite seqZ_cons by lia.
  apply for_each_raised. unfold assess_body.
  erewrite bind_raised; [done|]. unfold assess_trade.
  erewrite bind_raised; [done|]. unfold py_and.
  erewrite bind_raised; [done|]. unfold signal_is.
  erewrite bind_raised; [done|]. by apply get_item_none.
Qed.

(** X7. On a signal column without any 'BUY' the close column is never
    read: the call raises [ZeroDivisionError] (no trade is closed), also
    when the frame has no close column at all. *)
Theorem assess_without_entry σ df closeCol sigCol sigs (initialAmount : F) :
  cols (frame_at σ df) !! sigCol = Some sigs →
  length sigs = nrows (frame_at σ df) →
  (∀ v, v ∈ sigs → is_str v "BUY" = false) →
  assessTradingStrategy df closeCol sigCol initialAmount σ
  = (σ, Raised ZeroDivisionError).
Proof.
  intros Hs Hlen Hnobuy.
  assert (∀ j : nat, (j ≤ length sigs)%nat →
            ∃ st, assess_prefix df closeCol sigCol initialAmount (Z.of_nat j) σ
                  = (σ, Returned st) ∧
                  bought st = false ∧ numSuccess st = 0 ∧ numFailure st = 0)
    as Hprefix.
  { induction j as [|j IH]; intros Hj.
    - by exists (init_locals initialAmount).
    - destruct (IH ltac:(lia)) as (st & Hrun & Hb & Hns & Hnf).
      destruct (lookup_lt_is_Some_2 sigs j) as [v Hv]; [lia|].
      assert (is_str v "BUY" = false) as Hvb
        by (apply Hnobuy; by eapply list_elem_of_lookup_2).
      unfold assess_prefix in *.
      replace (Z.of_nat (S j)) with (Z.of_nat j + 1) by lia.
      rewrite py_range_snoc by lia. rewrite for_each_app.
      rewrite (bind_returned _ _ _ _ _ Hrun). cbn [for_each].
      assert (assess_trade df closeCol sigCol (Z.of_nat j) st σ = (σ, Returned st))
        as Htrade.
      { unfold assess_trade.
        rewrite (bind_returned _ _ σ σ
                   (is_str v "BUY" && bool_decide (bought st = false))).
        2:{ apply py_and_returned; [by eapply signal_is_some|done]. }
        rewrite Hvb. simpl.
        rewrite (bind_returned _ _ σ σ
                   (is_str v "SELL" && bool_decide (bought st = true))).
        2:{ apply py_and_returned; [by eapply signal_is_some|done]. }
        rewrite Hb. by rewrite andb_false_r. }
      unfold assess_body. unfold bind at 1.
      rewrite (bind_returned _ _ _ _ _ Htrade).
      unfold assess_snapshot. rewrite (bind_returned _ _ _ _ _ (df_len_run _ _)).
      case_decide; eexists; (split; [reflexivity|done]). }
  destruct (Hprefix (length sigs) ltac:(lia)) as (st & Hrun & _ & Hns & Hnf).
  assert (assess_loop df closeCol sigCol initialAmount σ = (σ, Returned st))
    as Hloop.
  { unfold assess_loop. rewrite (bind_returned _ _ _ _ _ (df_len_run _ _)).
    by rewrite <- Hlen. }
  unfold assessTradingStrategy. rewrite (bind_returned _ _ _ _ _ Hloop).
  apply assess_report_no_trade. lia.
Qed.

(** X8. Whenever [EMA_trading_strategy] returns, its signal column holds
    as many 'BUY' as 'SELL' cells, or one 'BUY' more: at most one position
    is left open. *)
Theorem signals_balanced σ df e1 e2 e3 σ' dfCopy :
  EMA_trading_strategy df e1 e2 e3 σ = (σ', Returned dfCopy) →
  ∃ c, cols (frame_at σ' dfCopy) !! signal_col = Some c ∧
    (count_str "SELL" c ≤ count_str "BUY" c ≤ count_str "SELL" c + 1)%nat.
Proof.
  intros Hrun.
  destruct (EMA_trading_strategy_alternates _ _ _ _ _ _ _ Hrun) as (c & Hc & _ & Halt).
  exists c. split; [done|].
  pose proof (alternates_balance c false Halt) as Hbal. simpl in Hbal.
  destruct (holding_after false c); lia.
Qed.

(** X9. The backtest run on the frame the signal generator returned, with
    a close column of the argument: the loop closes one trade per 'SELL'
    cell, [numSuccess + numFailure] being the number of 'SELL' cells, and it
    ends holding exactly when there is one 'BUY' more than 'SELL's. *)
Theorem backtest_of_generated_signals σ df e1 e2 e3 σ' dfCopy closeCol closes
    (initialAmount : F) :
  EMA_trading_strategy df e1 e2 e3 σ = (σ', Returned dfCopy) →
  cols (frame_at σ df) !! closeCol = Some (VFloat <$> closes) →
  length closes = nrows (frame_at σ df) →
  closeCol ≠ signal_col →
  ∃ c st,
    cols (frame_at σ' dfCopy) !! signal_col = Some c ∧
    assess_loop dfCopy closeCol signal_col initialAmount σ' = (σ', Returned st) ∧
    numSuccess st + numFailure st = Z.of_nat (count_str "SELL" c) ∧
    count_str "BUY" c = (count_str "SELL" c + (if bought st then 1 else 0))%nat.
Proof.
  intros Hrun Hclose Hlen Hne.
  destruct (EMA_trading_strategy_alternates _ _ _ _ _ _ _ Hrun)
    as (c & Hc & Hclen & Halt).
  assert (dfCopy = length σ) as ->
    by (eapply EMA_trading_strategy_result; by rewrite Hrun).
  destruct (EMA_trading_strategy_keeps σ df e1 e2 e3) as (d' & Hst & Hn & Hkeep).
  rewrite Hrun in Hst. simpl in Hst. subst σ'. rewrite frame_at_last in Hc.
  assert (cols (frame_at (σ ++ [d']) (length σ)) !! closeCol
          = Some (VFloat <$> closes)) as Hclose'.
  { rewrite frame_at_last. by rewrite Hkeep. }
  assert (cols (frame_at (σ ++ [d']) (length σ)) !! signal_col = Some c) as Hc'
    by (by rewrite frame_at_last).
  assert (nrows (frame_at (σ ++ [d']) (length σ)) = nrows (frame_at σ df)) as Hn'
    by (by rewrite frame_at_last).
  pose proof (assess_loop_run _ _ closeCol signal_col c closes initialAmount
                Hc' Hclose' ltac:(lia) ltac:(lia)) as Hloop.
  rewrite Hn' in Hloop. set (n := nrows (frame_at σ df)) in *.
  exists c, (assess_states c closes n (init_locals initialAmount) n).
  split; [by rewrite frame_at_last|]. split; [done|].
  destruct (assess_states_count c closes n initialAmount n)
    as (Hcount & Hflag & _); [lia|lia|].
  rewrite <- Hclen, firstn_all in Hcount, Hflag. rewrite Hclen in Hcount, Hflag.
  rewrite Hcount, Hflag, (alternates_pairs c false Halt).
  split; [done|].
  pose proof (alternates_balance c false Halt) as Hbal. simpl in Hbal. lia.
Qed.

(** X10. Whenever [assessTradingStrategy] returns, on a signal and a close
    column of the frame's length, the ending investment amount it reports
    is the rounding of the investment the loop ended with, the one the
    total profit is computed from; and at least one trade was closed. *)
Theorem assess_result_consistent σ df closeCol sigCol sigs closes
    (initialAmount : F) σ' res :
  cols (frame_at σ df) !! sigCol = Some sigs →
  cols (frame_at σ df) !! closeCol = Some (VFloat <$> closes) →
  length sigs = nrows (frame_at σ df) →
  length closes = nrows (frame_at σ df) →
  assessTradingStrategy df closeCol sigCol initialAmount σ = (σ', Returned res) →
  ∃ st,
    assess_loop df closeCol sigCol initialAmount σ = (σ, Returned st) ∧
    res_endingInvestmentAmount res = Round2 (investment st) ∧
    totalProfit res = Round2 (fsub (investment st) initialAmount) ∧
    0 < res_numSuccess res + res_numFailure res.
Proof.
  intros Hs Hc Hl1 Hl2 Hres.
  set (n := nrows (frame_at σ df)) in *.
  set (st := assess_states sigs closes n (init_locals initialAmount) n).
  pose proof (assess_loop_run σ df closeCol sigCol sigs closes initialAmount
                Hs Hc Hl1 Hl2) as Hloop. fold n in Hloop. fold st in Hloop.
  exists st. split; [done|].
  unfold assessTradingStrategy in Hres.
  rewrite (bind_returned _ _ _ _ _ Hloop) in Hres.
  destruct (assess_states_numpy sigs closes n initialAmount n) as (Hsn & Hfn & Hnp).
  fold st in Hsn, Hfn, Hnp.
  destruct (decide (numSuccess st + numFailure st = 0)) as [Hz|Hnz].
  { rewrite assess_report_no_trade in Hres by done. discriminate. }
  destruct (assess_report_run st initialAmount σ) as (res' & Hres' & H1 & H2 & H3 & H4);
    [lia|apply Hnp; lia|].
  rewrite Hres' in Hres. injection Hres as <- <-.
  rewrite H1, H2, H3, H4. split; [|split; [done|lia]].
  apply assess_states_last; [|done|done].
  destruct n as [|n']; [|lia]. exfalso. apply Hnz. done.
Qed.

(** X11. A signal the position does not allow changes nothing: at a 'BUY'
    met while holding, a 'SELL' met while not holding, or any other cell,
    the investment, the buy price, the flag and both counters after the
    position are those before it. *)
Theorem assess_ignores_disallowed_signal σ df closeCol sigCol sigs closes
    (initialAmount : F) (i : nat) v x :
  cols (frame_at σ df) !! sigCol = Some sigs →
  cols (frame_at σ df) !! closeCol = Some (VFloat <$> closes) →
  length sigs = nrows (frame_at σ df) →
  length closes = nrows (frame_at σ df) →
  sigs !! i = Some v → closes !! i = Some x →
  ∃ st st',
    assess_prefix df closeCol sigCol initialAmount (Z.of_nat i) σ = (σ, Returned st) ∧
    assess_prefix df closeCol sigCol initialAmount (Z.of_nat i + 1) σ
    = (σ, Returned st') ∧
    (is_str v "BUY" && negb (bought st) = false →
     is_str v "SELL" && bought st = false →
     investment st' = investment st ∧ buyPrice st' = buyPrice st ∧
     bought st' = bought st ∧
     numSuccess st' = numSuccess st ∧ numFailure st' = numFailure st).
Proof.
  intros Hs Hc Hl1 Hl2 Hv Hx.
  pose proof (lookup_lt_Some _ _ _ Hv) as Hi1.
  pose proof (lookup_lt_Some _ _ _ Hx) as Hi2.
  set (n := nrows (frame_at σ df)) in *.
  set (st := assess_states sigs closes n (init_locals initialAmount) i).
  exists st, (snapshot_step (bool_decide (Z.of_nat i = Z.of_nat n - 1)) (trade_step v x st)).
  split; [apply (assess_prefix_run _ _ _ _ sigs closes); (done || lia)|].
  split.
  { replace (Z.of_nat i + 1) with (Z.of_nat (S i)) by lia.
    rewrite (assess_prefix_run _ _ _ _ sigs closes) by (done || lia).
    fold n. by rewrite (assess_states_S _ _ _ _ _ v x). }
  intros Hb Hsell.
  destruct (snapshot_step_fields (bool_decide (Z.of_nat i = Z.of_nat n - 1))
              (trade_step v x st)) as (-> & -> & -> & -> & ->).
  by rewrite trade_step_noop.
Qed.

(** X12. When the signal sequence completes no (BUY, SELL) pair, the loop
    of [assessTradingStrategy] ends with the investment it started with. *)
Theorem assess_no_pair_keeps_investment σ df closeCol sigCol sigs closes
    (initialAmount : F) :
  cols (frame_at σ df) !! sigCol = Some sigs →
  cols (frame_at σ df) !! closeCol = Some (VFloat <$> closes) →
  length sigs = nrows (frame_at σ df) →
  length closes = nrows (frame_at σ df) →
  completed_pairs false sigs = 0%nat →
  ∃ st,
    assess_loop df closeCol sigCol initialAmount σ = (σ, Returned st) ∧
    investment st = initialAmount.
Proof.
  intros Hs Hc Hl1 Hl2 Hzero.
  set (n := nrows (frame_at σ df)) in *.
  eexists. split; [by apply (assess_loop_run _ _ _ _ sigs closes)|]. fold n.
  destruct (assess_states_count sigs closes n initialAmount n)
    as (Hcount & _); [lia|lia|].
  rewrite <- Hl1, firstn_all, Hzero in Hcount. rewrite Hl1 in Hcount.
  by apply assess_states_untouched.
Qed.

(** X13. Two calls of [EMA] on the same close column with different
    periods, the close column's name being neither period's
    ['<period>_period_EMA'], do not interfere: the frame of the second call
    holds the first period's column as the first call computed it, the
    second period's column as [EMA] computes it on the original frame, and
    the close column of the original frame. *)
Theorem EMA_twice σ df closeCol (p q : Z) s :
  cols (frame_at σ df) !! closeCol = Some (VFloat <$> s) →
  nrows (frame_at σ df) = length s →
  1 ≤ p ≤ Z.of_nat (length s) → 1 ≤ q ≤ Z.of_nat (length s) → p ≠ q →
  closeCol ≠ ema_name p → closeCol ≠ ema_name q →
  ∃ σ1 r1 σ2 r2 σq rq outp outq,
    EMA df closeCol p σ = (σ1, Returned r1) ∧
    EMA r1 closeCol q σ1 = (σ2, Returned r2) ∧
    EMA df closeCol q σ = (σq, Returned rq) ∧
    cols (frame_at σ1 r1) !! ema_name p = Some outp ∧
    cols (frame_at σq rq) !! ema_name q = Some outq ∧
    cols (frame_at σ2 r2) !! ema_name p = Some outp ∧
    cols (frame_at σ2 r2) !! ema_name q = Some outq ∧
    cols (frame_at σ2 r2) !! closeCol = cols (frame_at σ df) !! closeCol.
Proof.
  intros Hclose Hrows Hp Hq Hpq Hnp Hnq.
  set (d := frame_at σ df) in *.
  set (d1 := with_floats d (ema_name p) (ema_values s (Z.to_nat p))).
  assert (ema_name p ≠ ema_name q) as Hnames
    by (intros Heq; by apply ema_name_inj in Heq).
  pose proof (EMA_run σ df closeCol p s Hclose Hrows Hp Hnp) as H1.
  pose proof (EMA_run σ df closeCol q s Hclose Hrows Hq Hnq) as Hq1.
  fold d in H1, Hq1. fold d1 in H1.
  assert (frame_at (σ ++ [d1]) (length σ) = d1) as Hd1 by apply frame_at_last.
  assert (cols d1 !! closeCol = Some (VFloat <$> s)) as Hclose1.
  { unfold d1. by rewrite with_floats_other. }
  pose proof (EMA_run (σ ++ [d1]) (length σ) closeCol q s
                ltac:(by rewrite Hd1) ltac:(by rewrite Hd1) Hq Hnq) as H2.
  rewrite Hd1 in H2.
  eexists _, _, _, _, _, _, _, _.
  split; [exact H1|]. split; [exact H2|]. split; [exact Hq1|].
  rewrite !frame_at_last.
  split; [apply with_floats_self|]. split; [apply with_floats_self|].
  split; [|split].
  - rewrite with_floats_other by done. apply with_floats_self.
  - apply with_floats_self.
  - rewrite with_floats_other by done. unfold d1. by rewrite with_floats_other.
Qed.

(** X14. The whole pipeline on a close column: three calls of [EMA] with
    periods within the series, then [EMA_trading_strategy] on the three
    columns they name.  Every call returns; the signal column has one cell
    per row and holds no signal at any position where one of the three
    averages is still warming up; the frames of the starting store are
    untouched.  (NaN has to be a NaN for [np.isnan].) *)
Theorem pipeline_warmup σ df closeCol (p1 p2 p3 : Z) s :
  isnan (NaN : F) = true →
  cols (frame_at σ df) !! closeCol = Some (VFloat <$> s) →
  nrows (frame_at σ df) = length s →
  1 ≤ p1 ≤ Z.of_nat (length s) → 1 ≤ p2 ≤ Z.of_nat (length s) →
  1 ≤ p3 ≤ Z.of_nat (length s) →
  closeCol ≠ ema_name p1 → closeCol ≠ ema_name p2 → closeCol ≠ ema_name p3 →
  ∃ σ1 r1 σ2 r2 σ3 r3 σ4 r4 sig,
    EMA df closeCol p1 σ = (σ1, Returned r1) ∧
    EMA r1 closeCol p2 σ1 = (σ2, Returned r2) ∧
    EMA r2 closeCol p3 σ2 = (σ3, Returned r3) ∧
    EMA_trading_strategy r3 (ema_name p1) (ema_name p2) (ema_name p3) σ3
    = (σ4, Returned r4) ∧
    cols (frame_at σ4 r4) !! signal_col = Some sig ∧
    length sig = length s ∧
    (∀ i : nat,
       Z.of_nat i < p1 - 1 ∨ Z.of_nat i < p2 - 1 ∨ Z.of_nat i < p3 - 1 →
       sig !! i = Some (VFloat NaN)) ∧
    (∀ r d, σ !! r = Some d → σ4 !! r = Some d).
Proof.
  intros Hnan Hclose Hrows Hp1 Hp2 Hp3 Hn1 Hn2 Hn3.
  set (d := frame_at σ df) in *.
  set (o1 := ema_values s (Z.to_nat p1)).
  set (o2 := ema_values s (Z.to_nat p2)).
  set (o3 := ema_values s (Z.to_nat p3)).
  set (d1 := with_floats d (ema_name p1) o1).
  set (d2 := with_floats d1 (ema_name p2) o2).
  set (d3 := with_floats d2 (ema_name p3) o3).
  pose proof (EMA_run σ df closeCol p1 s Hclose Hrows Hp1 Hn1) as H1.
  fold d o1 d1 in H1.
  assert (frame_at (σ ++ [d1]) (length σ) = d1) as Hd1 by apply frame_at_last.
  assert (cols d1 !! closeCol = Some (VFloat <$> s)) as Hclose1
    by (unfold d1; by rewrite with_floats_other).
  pose proof (EMA_run (σ ++ [d1]) (length σ) closeCol p2 s
                ltac:(by rewrite Hd1) ltac:(by rewrite Hd1) Hp2 Hn2) as H2.
  rewrite Hd1 in H2. fold o2 d2 in H2.
  assert (frame_at ((σ ++ [d1]) ++ [d2]) (length (σ ++ [d1])) = d2) as Hd2
    by apply frame_at_last.
  assert (cols d2 !! closeCol = Some (VFloat <$> s)) as Hclose2
    by (unfold d2; by rewrite with_floats_other).
  pose proof (EMA_run ((σ ++ [d1]) ++ [d2]) (length (σ ++ [d1])) closeCol p3 s
                ltac:(by rewrite Hd2) ltac:(by rewrite Hd2) Hp3 Hn3) as H3.
  rewrite Hd2 in H3. fold o3 d3 in H3.
  set (σ3 := ((σ ++ [d1]) ++ [d2]) ++ [d3]) in *.
  set (r3 := length ((σ ++ [d1]) ++ [d2])) in *.
  assert (frame_at σ3 r3 = d3) as Hd3 by apply frame_at_last.
  (* each name holds the average of its period, whichever names coincide *)
  assert (cols d3 !! ema_name p3 = Some (VFloat <$> o3)) as C3
    by apply with_floats_self.
  assert (cols d3 !! ema_name p2 = Some (VFloat <$> o2)) as C2.
  { destruct (decide (p2 = p3)) as [->|Hne]; [done|].
    unfold d3. rewrite with_floats_other
      by (intros Heq; by apply ema_name_inj in Heq).
    apply with_floats_self. }
  assert (cols d3 !! ema_name p1 = Some (VFloat <$> o1)) as C1.
  { destruct (decide (p1 = p3)) as [->|Hne3]; [done|].
    unfold d3. rewrite with_floats_other
      by (intros Heq; by apply ema_name_inj in Heq).
    destruct (decide (p1 = p2)) as [->|Hne2]; [apply with_floats_self|].
    unfold d2. rewrite with_floats_other
      by (intros Heq; by apply ema_name_inj in Heq).
    apply with_floats_self. }
  assert (length o1 = length s) as L1 by (apply length_ema_values; lia).
  assert (length o2 = length s) as L2 by (apply length_ema_values; lia).
  assert (length o3 = length s) as L3 by (apply length_ema_values; lia).
  pose proof (EMA_trading_strategy_run σ3 r3 (ema_name p1) (ema_name p2)
                (ema_name p3) o1 o2 o3
                ltac:(by rewrite Hd3) ltac:(by rewrite Hd3) ltac:(by rewrite Hd3)
                ltac:(rewrite Hd3; simpl; congruence)
                ltac:(congruence) ltac:(congruence)
                (ema_name_not_signal p1) (ema_name_not_signal p2)
                (ema_name_not_signal p3)) as H4.
  eexists _, _, _, _, _, _, _, _, _.
  split; [exact H1|]. split; [exact H2|]. split; [exact H3|]. split; [exact H4|].
  rewrite frame_at_last. split; [apply with_column_self|].
  split.
  { rewrite length_fmap, length_spec_generateSignals; congruence. }
  split.
  - intros i Hi.
    destruct (decide (i < length s)%nat) as [Hlt|Hge].
    2:{ destruct Hi as [Hi|[Hi|Hi]]; lia. }
    destruct (lookup_lt_is_Some_2 o1 i) as [a Ha]; [lia|].
    destruct (lookup_lt_is_Some_2 o2 i) as [b Hb]; [lia|].
    destruct (lookup_lt_is_Some_2 o3 i) as [c Hc]; [lia|].
    destruct (spec_scan_lookup o1 false o2 o3 i a b c Ha Hb Hc) as [Hsig _].
    rewrite list_lookup_fmap, Hsig. simpl. f_equal.
    rewrite spec_signal_cases.
    assert (isnan a || (isnan b || isnan c) = true) as ->; [|done].
    destruct Hi as [Hi|[Hi|Hi]].
    + unfold o1 in Ha. rewrite ema_values_warmup in Ha by lia.
      injection Ha as <-. by rewrite Hnan.
    + unfold o2 in Hb. rewrite ema_values_warmup in Hb by lia.
      injection Hb as <-. rewrite Hnan. by rewrite orb_true_r.
    + unfold o3 in Hc. rewrite ema_values_warmup in Hc by lia.
      injection Hc as <-. rewrite Hnan. by rewrite !orb_true_r.
  - intros r d0 Hr. unfold σ3. rewrite <- !app_assoc.
    by apply lookup_app_l_Some.
Qed.

(** X15. The tests of [EMA_trading_strategy] are lazy: where the first EMA
    column is NaN the other two columns are not read.  With a first column
    that is NaN in every row the call returns the copy with no signal at
    all, whatever the other two names are, columns of the frame or not. *)
Theorem strategy_all_warmup σ df e1 e2 e3 s1 :
  cols (frame_at σ df) !! e1 = Some (VFloat <$> s1) →
  length s1 = nrows (frame_at σ df) →
  (∀ x, x ∈ s1 → isnan x = true) →
  e1 ≠ signal_col →
  EMA_trading_strategy df e1 e2 e3 σ
  = (σ ++ [with_floats (frame_at σ df) signal_col
             (replicate (nrows (frame_at σ df)) NaN)], Returned (length σ)).
Proof.
  intros H1 Hlen Hnan Hne. unfold EMA_trading_strategy.
  rewrite (bind_returned _ _ σ (σ ++ [frame_at σ df]) (length σ)) by done.
  rewrite (bind_returned _ _ _ _ _ (set_column_last _ _ _ _)).
  rewrite (bind_returned _ _ _ _ _ (df_len_last _ _)).
  rewrite nrows_with_floats. unfold py_range.
  set (n := nrows (frame_at σ df)) in *.
  set (D := with_floats (frame_at σ df) signal_col (replicate n NaN)).
  replace (Z.of_nat n - 0) with (Z.of_nat n) by lia.
  assert (∀ m j : nat, (j + m = n)%nat →
            for_each (seqZ (Z.of_nat j) (Z.of_nat m))
              (strategy_body (length σ) e1 e2 e3) false (σ ++ [D])
            = (σ ++ [D], Returned false)) as Hloop.
  { induction m as [|m IH]; intros j Hj; [done|].
    rewrite seqZ_cons by lia. cbn [for_each].
    destruct (lookup_lt_is_Some_2 s1 j) as [x Hx]; [lia|].
    assert (isnan x = true) as Hx' by (apply Hnan; by eapply list_elem_of_lookup_2).
    rewrite (bind_returned _ _ _ (σ ++ [D]) false).
    - replace (Z.succ (Z.of_nat j)) with (Z.of_nat (S j)) by lia.
      replace (Z.pred (Z.of_nat (S m))) with (Z.of_nat m) by lia.
      apply IH. lia.
    - unfold strategy_body.
      rewrite (bind_returned _ _ _ (σ ++ [D]) true); [done|].
      unfold py_or.
      rewrite (bind_returned _ _ _ (σ ++ [D]) true); [done|].
      rewrite <- Hx'. apply (isnan_item_some _ _ _ (VFloat <$> s1)).
      + rewrite frame_at_last. unfold D. by rewrite with_floats_other.
      + by rewrite list_lookup_fmap, Hx. }
  change 0 with (Z.of_nat 0).
  by rewrite (bind_returned _ _ _ _ _ (Hloop n 0%nat ltac:(lia))).
Qed.

(** ** Periods [EMA] does not check *)









End Properties.

(** ** The claims on the sample frames *)



Lemma EMA_recurrence_witness :
  let σ := [Samples.prices] in
  let s := [10; 20; 30; 40; 50]%float in
  cols (frame_at σ 0%nat) !! "Close" = Some (VFloat <$> s) ∧
  nrows (frame_at σ 0%nat) = length s ∧
  1 ≤ 3 ≤ Z.of_nat (length s) ∧
  "Close" ≠ ema_name 3 ∧
  3 - 1 < Z.of_nat 3 < Z.of_nat (length s) ∧
  ∃ σ' dfCopy out prev,
    EMA 0%nat "Close" 3 σ = (σ', Returned dfCopy) ∧
    cols (frame_at σ' dfCopy) !! "3_period_EMA" = Some (VFloat <$> out) ∧
    out !! 2%nat = Some prev ∧
    out !! 3%nat = Some (fadd (fmul 40%float 0.5%float) (fmul prev 0.5%float)).
Proof.
  intros σ s.
  assert ("Close" ≠ ema_name 3) as Hne by (vm_compute; discriminate).
  destruct (EMA_recurrence σ 0%nat "Close" 3 s 3%nat eq_refl eq_refl
              ltac:(simpl; lia) Hne ltac:(simpl; lia))
    as (σ' & dfCopy & out & x & prev & Hrun & Hcol & Hx & Hprev & Hrec).
  injection Hx as <-.
  repeat split; try reflexivity; try (simpl; lia); try done.
  by exists σ', dfCopy, out, prev.
Defined.

Lemma EMA_trading_strategy_follows_spec_witness :
  let σ := [Samples.averages] in
  let s1 := [PrimFloat.nan; 3; 3; 1]%float in
  let s2 := [2; 2; 2; 2]%float in
  let s3 := [1; 1; 1; 3]%float in
  cols (frame_at σ 0%nat) !! "short" = Some (VFloat <$> s1) ∧
  cols (frame_at σ 0%nat) !! "mid" = Some (VFloat <$> s2) ∧
  cols (frame_at σ 0%nat) !! "long" = Some (VFloat <$> s3) ∧
  nrows (frame_at σ 0%nat) = length s1 ∧
  length s2 = length s1 ∧ length s3 = length s1 ∧
  "short" ≠ signal_col ∧ "mid" ≠ signal_col ∧ "long" ≠ signal_col ∧
  ∃ σ' dfCopy,
    EMA_trading_strategy 0%nat "short" "mid" "long" σ = (σ', Returned dfCopy) ∧
    cols (frame_at σ' dfCopy) !! signal_col
    = Some [VFloat PrimFloat.nan; VStr "BUY"; VFloat PrimFloat.nan; VStr "SELL"].
Proof.
  intros σ s1 s2 s3.
  assert ("short" ≠ signal_col) as H1 by discriminate.
  assert ("mid" ≠ signal_col) as H2 by discriminate.
  assert ("long" ≠ signal_col) as H3 by discriminate.
  destruct (EMA_trading_strategy_follows_spec σ 0%nat "short" "mid" "long" s1 s2 s3
              eq_refl eq_refl eq_refl eq_refl eq_refl eq_refl H1 H2 H3)
    as (σ' & dfCopy & Hrun & Hcol & Hlen).
  repeat split; try reflexivity; try done.
  by exists σ', dfCopy.
Defined.

Lemma signals_alternate_witness :
  let σ := [Samples.averages] in
  let σ' := (EMA_trading_strategy 0%nat "short" "mid" "long" σ).1 in
  EMA_trading_strategy 0%nat "short" "mid" "long" σ = (σ', Returned 1%nat) ∧
  ∃ c, cols (frame_at σ' 1%nat) !! signal_col = Some c ∧ alternates false c.
Proof.
  intros σ σ'.
  assert (EMA_trading_strategy 0%nat "short" "mid" "long" σ = (σ', Returned 1%nat))
    as Hrun by (vm_compute; reflexivity).
  split; [exact Hrun|].
  destruct (signals_alternate σ 0%nat "short" "mid" "long" σ' 1%nat Hrun)
    as (c & Hc & _ & Halt & _).
  by exists c.
Defined.

Lemma backtest_counts_completed_pairs_witness :
  let σ := [Samples.open_position] in
  let sigs := [VFloat PrimFloat.nan; VStr "BUY"; VFloat PrimFloat.nan] in
  let closes := [100; 101; 102]%float in
  cols (frame_at σ 0%nat) !! "Buy_Sell_Signal" = Some sigs ∧
  cols (frame_at σ 0%nat) !! "Close" = Some (VFloat <$> closes) ∧
  length sigs = nrows (frame_at σ 0%nat) ∧
  length closes = nrows (frame_at σ 0%nat) ∧
  completed_pairs false sigs = 0%nat ∧
  ∃ st,
    assess_loop 0%nat "Close" "Buy_Sell_Signal" 1000%float σ = (σ, Returned st) ∧
    numSuccess st + numFailure st = 0 ∧
    assessTradingStrategy 0%nat "Close" "Buy_Sell_Signal" 1000%float σ
    = (σ, Raised ZeroDivisionError).
Proof.
  intros σ sigs closes.
  destruct (backtest_counts_completed_pairs σ 0%nat "Close" "Buy_Sell_Signal"
              sigs closes 1000%float eq_refl eq_refl eq_refl eq_refl)
    as (st & Hloop & Hcount & _ & Hraise & _).
  repeat split; try reflexivity.
  exists st. split; [exact Hloop|]. split; [exact Hcount|].
  exact (Hraise eq_refl).
Defined.

Lemma no_trade_raises_witness :
  let σ := [Samples.open_position] in
  ∃ st,
    assess_loop 0%nat "Close" "Buy_Sell_Signal" 1000%float σ = (σ, Returned st) ∧
    numSuccess st + numFailure st = 0 ∧
    assessTradingStrategy 0%nat "Close" "Buy_Sell_Signal" 1000%float σ
    = (σ, Raised ZeroDivisionError).
Proof.
  intros σ.
  assert (∃ st, assess_loop 0%nat "Close" "Buy_Sell_Signal" 1000%float σ
                = (σ, Returned st)) as [st Hloop]
    by (vm_compute; eexists; reflexivity).
  assert (numSuccess st + numFailure st = 0) as Hzero.
  { vm_compute in Hloop. by injection Hloop as <-. }
  exists st. split; [done|]. split; [done|].
  exact (no_trade_raises σ σ 0%nat "Close" "Buy_Sell_Signal" 1000%float st
           Hloop Hzero).
Defined.


Lemma inputs_not_mutated_witness :
  let σ := [Samples.prices] in
  (EMA 0%nat "Close" 3 σ).1 !! 0%nat = Some Samples.prices ∧
  (EMA_trading_strategy 0%nat "Close" "Close" "Close" σ).1 !! 0%nat
  = Some Samples.prices.
Proof.
  intros σ.
  destruct (inputs_not_mutated σ 0%nat "Close" 3 "Close" "Close" "Close")
    as (H1 & _ & _ & H2 & _).
  split; [by apply H1|by apply H2].
Defined.

Lemma EMA_period_beyond_series_witness :
  let σ := [Samples.prices] in
  Z.of_nat (nrows (frame_at σ 0%nat)) < 7 ∧
  ∃ σ' dfCopy,
    EMA 0%nat "Close" 7 σ = (σ', Returned dfCopy) ∧
    cols (frame_at σ' dfCopy) !! "7_period_EMA"
    = Some (replicate 5 (VFloat PrimFloat.nan)) ∧
    cols (frame_at σ' dfCopy) !! "Close" = cols Samples.prices !! "Close".
Proof.
  intros σ.
  destruct (EMA_period_beyond_series σ 0%nat "Close" 7 ltac:(simpl; lia))
    as (_ & σ' & dfCopy & Hrun & _ & Hcol & Hother).
  split; [simpl; lia|]. exists σ', dfCopy.
  split; [done|]. split; [done|]. by apply Hother.
Defined.

(** The claims the code does not meet, at a sample input. *)



(** ** The further properties on the sample frames *)

Lemma EMA_adds_one_column_witness :
  let σ := [Samples.prices] in
  let σ' := (EMA 0%nat "Close" 3 σ).1 in
  EMA 0%nat "Close" 3 σ = (σ', Returned 1%nat) ∧
  nrows (frame_at σ' 1%nat) = 5%nat ∧
  cols (frame_at σ' 1%nat) !! "Close" = cols Samples.prices !! "Close".
Proof.
  intros σ σ'.
  assert (EMA 0%nat "Close" 3 σ = (σ', Returned 1%nat)) as Hrun
    by (vm_compute; reflexivity).
  destruct (EMA_adds_one_column σ 0%nat "Close" 3 σ' 1%nat Hrun) as (Hn & Hc & _).
  split; [exact Hrun|]. split; [exact Hn|].
  apply Hc. vm_compute. discriminate.
Defined.

Lemma EMA_trading_strategy_adds_one_column_witness :
  let σ := [Samples.averages] in
  let σ' := (EMA_trading_strategy 0%nat "short" "mid" "long" σ).1 in
  EMA_trading_strategy 0%nat "short" "mid" "long" σ = (σ', Returned 1%nat) ∧
  nrows (frame_at σ' 1%nat) = 4%nat ∧
  cols (frame_at σ' 1%nat) !! "mid" = cols Samples.averages !! "mid".
Proof.
  intros σ σ'.
  assert (EMA_trading_strategy 0%nat "short" "mid" "long" σ = (σ', Returned 1%nat))
    as Hrun by (vm_compute; reflexivity).
  destruct (EMA_trading_strategy_adds_one_column σ 0%nat "short" "mid" "long"
              σ' 1%nat Hrun) as (Hn & Hc).
  split; [exact Hrun|]. split; [exact Hn|].
  apply Hc. discriminate.
Defined.

Lemma EMA_missing_close_column_witness :
  let σ := [Samples.prices] in
  1 ≤ 3 ≤ Z.of_nat (nrows (frame_at σ 0%nat)) ∧
  cols (frame_at σ 0%nat) !! "Open" = None ∧
  "Open" ≠ ema_name 3 ∧
  (EMA 0%nat "Open" 3 σ).2 = Raised KeyError.
Proof.
  intros σ.
  assert ("Open" ≠ ema_name 3) as Hne by (vm_compute; discriminate).
  split; [simpl; lia|]. split; [reflexivity|]. split; [exact Hne|].
  by rewrite (EMA_missing_close_column σ 0%nat "Open" 3
                ltac:(simpl; lia) eq_refl Hne).
Defined.

Lemma strategy_missing_column_witness :
  let σ := [Samples.prices] in
  (1 ≤ nrows (frame_at σ 0%nat))%nat ∧
  cols (frame_at σ 0%nat) !! "short" = None ∧
  "short" ≠ signal_col ∧
  (EMA_trading_strategy 0%nat "short" "mid" "long" σ).2 = Raised KeyError.
Proof.
  intros σ.
  assert ("short" ≠ signal_col) as Hne by discriminate.
  split; [simpl; lia|]. split; [reflexivity|]. split; [exact Hne|].
  by rewrite (strategy_missing_column σ 0%nat "short" "mid" "long"
                ltac:(simpl; lia) eq_refl Hne).
Defined.

Lemma assess_missing_signal_column_witness :
  let σ := [Samples.prices] in
  (1 ≤ nrows (frame_at σ 0%nat))%nat ∧
  cols (frame_at σ 0%nat) !! "Buy_Sell_Signal" = None ∧
  assessTradingStrategy 0%nat "Close" "Buy_Sell_Signal" 1000%float σ
  = (σ, Raised KeyError).
Proof.
  intros σ. split; [simpl; lia|]. split; [reflexivity|].
  exact (assess_missing_signal_column σ 0%nat "Close" "Buy_Sell_Signal" 1000%float
           ltac:(simpl; lia) eq_refl).
Defined.

Lemma assess_without_entry_witness :
  let σ := [Samples.signals_only] in
  let sigs := [VFloat PrimFloat.nan; VStr "SELL"] in
  cols (frame_at σ 0%nat) !! "Buy_Sell_Signal" = Some sigs ∧
  length sigs = nrows (frame_at σ 0%nat) ∧
  (∀ v, v ∈ sigs → is_str v "BUY" = false) ∧
  cols (frame_at σ 0%nat) !! "Close" = None ∧
  assessTradingStrategy 0%nat "Close" "Buy_Sell_Signal" 1000%float σ
  = (σ, Raised ZeroDivisionError).
Proof.
  intros σ sigs.
  assert (∀ v, v ∈ sigs → is_str v "BUY" = false) as Hno.
  { intros v Hv. unfold sigs in Hv.
    apply elem_of_cons in Hv as [->|Hv]; [reflexivity|].
    apply elem_of_cons in Hv as [->|Hv]; [reflexivity|].
    by apply elem_of_nil in Hv. }
  split; [reflexivity|]. split; [reflexivity|]. split; [exact Hno|].
  split; [reflexivity|].
  exact (assess_without_entry σ 0%nat "Close" "Buy_Sell_Signal" sigs 1000%float
           eq_refl eq_refl Hno).
Defined.

Lemma signals_balanced_witness :
  let σ := [Samples.averages] in
  let σ' := (EMA_trading_strategy 0%nat "short" "mid" "long" σ).1 in
  EMA_trading_strategy 0%nat "short" "mid" "long" σ = (σ', Returned 1%nat) ∧
  ∃ c, cols (frame_at σ' 1%nat) !! signal_col = Some c ∧
       (count_str "BUY" c ≤ count_str "SELL" c + 1)%nat.
Proof.
  intros σ σ'.
  assert (EMA_trading_strategy 0%nat "short" "mid" "long" σ = (σ', Returned 1%nat))
    as Hrun by (vm_compute; reflexivity).
  split; [exact Hrun|].
  destruct (signals_balanced σ 0%nat "short" "mid" "long" σ' 1%nat Hrun)
    as (c & Hc & _ & Hle).
  by exists c.
Defined.

Lemma backtest_of_generated_signals_witness :
  let σ := [Samples.averages_priced] in
  let σ' := (EMA_trading_strategy 0%nat "short" "mid" "long" σ).1 in
  let closes := [10; 11; 12; 13]%float in
  EMA_trading_strategy 0%nat "short" "mid" "long" σ = (σ', Returned 1%nat) ∧
  cols (frame_at σ 0%nat) !! "Close" = Some (VFloat <$> closes) ∧
  length closes = nrows (frame_at σ 0%nat) ∧
  "Close" ≠ signal_col ∧
  ∃ st,
    assess_loop 1%nat "Close" signal_col 1000%float σ' = (σ', Returned st) ∧
    numSuccess st + numFailure st = 1.
Proof.
  intros σ σ' closes.
  assert (EMA_trading_strategy 0%nat "short" "mid" "long" σ = (σ', Returned 1%nat))
    as Hrun by (vm_compute; reflexivity).
  assert ("Close" ≠ signal_col) as Hne by discriminate.
  destruct (backtest_of_generated_signals σ 0%nat "short" "mid" "long" σ' 1%nat
              "Close" closes 1000%float Hrun eq_refl eq_refl Hne)
    as (c & st & Hc & Hloop & Hcount & _).
  split; [exact Hrun|]. split; [reflexivity|]. split; [reflexivity|].
  split; [exact Hne|]. exists st. split; [exact Hloop|].
  rewrite Hcount. vm_compute in Hc. injection Hc as <-. reflexivity.
Defined.

Lemma assess_result_consistent_witness :
  let σ := [Samples.trades] in
  let sigs := [VFloat PrimFloat.nan; VFloat PrimFloat.nan; VStr "BUY";
               VFloat PrimFloat.nan; VStr "SELL"; VFloat PrimFloat.nan] in
  let closes := [100; 101; 102; 103; 104; 105]%float in
  cols (frame_at σ 0%nat) !! "Buy_Sell_Signal" = Some sigs ∧
  cols (frame_at σ 0%nat) !! "Close" = Some (VFloat <$> closes) ∧
  length sigs = nrows (frame_at σ 0%nat) ∧
  length closes = nrows (frame_at σ 0%nat) ∧
  ∃ res st,
    assessTradingStrategy 0%nat "Close" "Buy_Sell_Signal" 1000%float σ
    = (σ, Returned res) ∧
    res_endingInvestmentAmount res = Round2 (investment st) ∧
    totalProfit res = Round2 (fsub (investment st) 1000%float).
Proof.
  intros σ sigs closes.
  assert (∃ res, assessTradingStrategy 0%nat "Close" "Buy_Sell_Signal" 1000%float σ
                 = (σ, Returned res)) as [res Hres]
    by (vm_compute; eexists; reflexivity).
  destruct (assess_result_consistent σ 0%nat "Close" "Buy_Sell_Signal" sigs closes
              1000%float σ res eq_refl eq_refl eq_refl eq_refl Hres)
    as (st & _ & Hend & Hprofit & _).
  repeat split; try reflexivity. by exists res, st.
Defined.

Lemma assess_ignores_disallowed_signal_witness :
  let σ := [Samples.trades] in
  let sigs := [VFloat PrimFloat.nan; VFloat PrimFloat.nan; VStr "BUY";
               VFloat PrimFloat.nan; VStr "SELL"; VFloat PrimFloat.nan] in
  let closes := [100; 101; 102; 103; 104; 105]%float in
  cols (frame_at σ 0%nat) !! "Buy_Sell_Signal" = Some sigs ∧
  cols (frame_at σ 0%nat) !! "Close" = Some (VFloat <$> closes) ∧
  length sigs = nrows (frame_at σ 0%nat) ∧
  length closes = nrows (frame_at σ 0%nat) ∧
  sigs !! 3%nat = Some (VFloat PrimFloat.nan) ∧ closes !! 3%nat = Some 103%float ∧
  ∃ st st',
    assess_prefix 0%nat "Close" "Buy_Sell_Signal" 1000%float 3 σ = (σ, Returned st) ∧
    assess_prefix 0%nat "Close" "Buy_Sell_Signal" 1000%float 4 σ = (σ, Returned st') ∧
    buyPrice st' = buyPrice st ∧ bought st' = bought st.
Proof.
  intros σ sigs closes.
  destruct (assess_ignores_disallowed_signal σ 0%nat "Close" "Buy_Sell_Signal"
              sigs closes 1000%float 3%nat (VFloat PrimFloat.nan) 103%float
              eq_refl eq_refl eq_refl eq_refl eq_refl eq_refl)
    as (st & st' & Hpre & Hpost & Hsame).
  destruct (Hsame eq_refl eq_refl) as (_ & Hbp & Hb & _).
  repeat split; try reflexivity. by exists st, st'.
Defined.

Lemma assess_no_pair_keeps_investment_witness :
  let σ := [Samples.open_position] in
  let sigs := [VFloat PrimFloat.nan; VStr "BUY"; VFloat PrimFloat.nan] in
  let closes := [100; 101; 102]%float in
  cols (frame_at σ 0%nat) !! "Buy_Sell_Signal" = Some sigs ∧
  cols (frame_at σ 0%nat) !! "Close" = Some (VFloat <$> closes) ∧
  length sigs = nrows (frame_at σ 0%nat) ∧
  length closes = nrows (frame_at σ 0%nat) ∧
  completed_pairs false sigs = 0%nat ∧
  ∃ st,
    assess_loop 0%nat "Close" "Buy_Sell_Signal" 1000%float σ = (σ, Returned st) ∧
    investment st = 1000%float ∧ bought st = true.
Proof.
  intros σ sigs closes.
  destruct (assess_no_pair_keeps_investment σ 0%nat "Close" "Buy_Sell_Signal"
              sigs closes 1000%float eq_refl eq_refl eq_refl eq_refl eq_refl)
    as (st & Hloop & Hinv).
  repeat split; try reflexivity. exists st.
  split; [exact Hloop|]. split; [exact Hinv|].
  vm_compute in Hloop. by injection Hloop as <-.
Defined.

Lemma EMA_twice_witness :
  let σ := [Samples.prices] in
  let s := [10; 20; 30; 40; 50]%float in
  cols (frame_at σ 0%nat) !! "Close" = Some (VFloat <$> s) ∧
  nrows (frame_at σ 0%nat) = length s ∧
  1 ≤ 2 ≤ Z.of_nat (length s) ∧ 1 ≤ 3 ≤ Z.of_nat (length s) ∧ 2 ≠ 3 ∧
  "Close" ≠ ema_name 2 ∧ "Close" ≠ ema_name 3 ∧
  ∃ σ1 r1 σ2 r2 outp outq,
    EMA 0%nat "Close" 2 σ = (σ1, Returned r1) ∧
    EMA r1 "Close" 3 σ1 = (σ2, Returned r2) ∧
    cols (frame_at σ2 r2) !! "2_period_EMA" = Some outp ∧
    cols (frame_at σ2 r2) !! "3_period_EMA" = Some outq.
Proof.
  intros σ s.
  assert ("Close" ≠ ema_name 2) as Hn2 by (vm_compute; discriminate).
  assert ("Close" ≠ ema_name 3) as Hn3 by (vm_compute; discriminate).
  destruct (EMA_twice σ 0%nat "Close" 2 3 s eq_refl eq_refl
              ltac:(simpl; lia) ltac:(simpl; lia) ltac:(lia) Hn2 Hn3)
    as (σ1 & r1 & σ2 & r2 & σq & rq & outp & outq
        & H1 & H2 & _ & _ & _ & Hp & Hq & _).
  repeat split; try reflexivity; try (simpl; lia); try done.
  by exists σ1, r1, σ2, r2, outp, outq.
Defined.

Lemma pipeline_warmup_witness :
  let σ := [Samples.prices] in
  let s := [10; 20; 30; 40; 50]%float in
  isnan (NaN : float) = true ∧
  cols (frame_at σ 0%nat) !! "Close" = Some (VFloat <$> s) ∧
  nrows (frame_at σ 0%nat) = length s ∧
  1 ≤ 2 ≤ Z.of_nat (length s) ∧ 1 ≤ 3 ≤ Z.of_nat (length s) ∧
  1 ≤ 4 ≤ Z.of_nat (length s) ∧
  "Close" ≠ ema_name 2 ∧ "Close" ≠ ema_name 3 ∧ "Close" ≠ ema_name 4 ∧
  ∃ σ4 r4 sig,
    cols (frame_at σ4 r4) !! signal_col = Some sig ∧
    length sig = 5%nat ∧
    sig !! 0%nat = Some (VFloat PrimFloat.nan) ∧
    sig !! 2%nat = Some (VFloat PrimFloat.nan) ∧
    σ4 !! 0%nat = Some Samples.prices.
Proof.
  intros σ s.
  assert ("Close" ≠ ema_name 2) as Hn2 by (vm_compute; discriminate).
  assert ("Close" ≠ ema_name 3) as Hn3 by (vm_compute; discriminate).
  assert ("Close" ≠ ema_name 4) as Hn4 by (vm_compute; discriminate).
  assert (isnan (NaN : float) = true) as Hnan by reflexivity.
  destruct (pipeline_warmup σ 0%nat "Close" 2 3 4 s Hnan eq_refl eq_refl
              ltac:(simpl; lia) ltac:(simpl; lia) ltac:(simpl; lia) Hn2 Hn3 Hn4)
    as (σ1 & r1 & σ2 & r2 & σ3 & r3 & σ4 & r4 & sig
        & _ & _ & _ & _ & Hsig & Hlen & Hwarm & Hkeep).
  repeat split; try reflexivity; try (simpl; lia); try done.
  exists σ4, r4, sig.
  split; [exact Hsig|]. split; [exact Hlen|].
  split; [apply (Hwarm 0%nat); lia|].
  split; [apply (Hwarm 2%nat); lia|].
  by apply Hkeep.
Defined.

Lemma strategy_all_warmup_witness :
  let σ := [Samples.cold] in
  let s1 := [PrimFloat.nan; PrimFloat.nan] in
  cols (frame_at σ 0%nat) !! "short" = Some (VFloat <$> s1) ∧
  length s1 = nrows (frame_at σ 0%nat) ∧
  (∀ x, x ∈ s1 → isnan x = true) ∧
  "short" ≠ signal_col ∧
  cols (frame_at σ 0%nat) !! "mid" = None ∧
  (EMA_trading_strategy 0%nat "short" "mid" "long" σ).2 = Returned 1%nat.
Proof.
  intros σ s1.
  assert (∀ x, x ∈ s1 → isnan x = true) as Hnan.
  { intros x Hx. unfold s1 in Hx.
    apply elem_of_cons in Hx as [->|Hx]; [reflexivity|].
    apply elem_of_cons in Hx as [->|Hx]; [reflexivity|].
    by apply elem_of_nil in Hx. }
  assert ("short" ≠ signal_col) as Hne by discriminate.
  split; [reflexivity|]. split; [reflexivity|]. split; [exact Hnan|].
  split; [exact Hne|]. split; [reflexivity|].
  by rewrite (strategy_all_warmup σ 0%nat "short" "mid" "long" s1
                eq_refl eq_refl Hnan Hne).
Defined.
